(** * Disk scheduling: FCFS, SSTF, SCAN and C-SCAN of [app.py]

    A shallow embedding of the four scheduling functions of [app.py]
    and the properties of their seek sequence and seek total.

    Python integers are unbounded, so cylinders, head positions, disk
    sizes and totals are [Z].  Python lists of integers are [list Z].
    The [direction] argument is a Python string that the code only ever
    compares with ['left']. *)

From Stdlib Require Import String.
From Stdlib Require Import ZArith List Lia Permutation Sorted Bool.
From Equations Require Import Equations.
From Equations.Prop Require Import Logic.
Import ListNotations.
Open Scope Z_scope.

(** ** Python built-ins used by the schedulers *)

(** [sum(xs)]: starts from [0] and adds the items from left to right. *)
Definition py_sum (xs : list Z) : Z := fold_left Z.add xs 0.

(** [min(x :: xs, key=key)]: the running best is replaced only by an item
    whose key is strictly smaller, so the first item of minimal key wins. *)
Definition py_min_from (key : Z -> Z) (x : Z) (xs : list Z) : Z :=
  fold_left (fun best y => if key y <? key best then y else best) xs x.

(** [min(l, key=key)]; [None] stands for the [ValueError] on an empty list. *)
Definition py_min (key : Z -> Z) (l : list Z) : option Z :=
  match l with
  | [] => None
  | x :: xs => Some (py_min_from key x xs)
  end.

(** [l.remove(x)]: drops the first item equal to [x]; [None] stands for the
    [ValueError] raised when there is none. *)
Fixpoint py_remove (x : Z) (l : list Z) : option (list Z) :=
  match l with
  | [] => None
  | y :: l' =>
      if y =? x then Some l'
      else match py_remove x l' with
           | Some r => Some (y :: r)
           | None => None
           end
  end.

(** [l.sort()] on integers: the ascending rearrangement of [l], which is
    the same list whatever the sorting algorithm; it is written here as an
    insertion sort. *)
Fixpoint py_insert (x : Z) (l : list Z) : list Z :=
  match l with
  | [] => [x]
  | y :: l' => if y <=? x then y :: py_insert x l' else x :: l
  end.

Fixpoint py_sort (l : list Z) : list Z :=
  match l with
  | [] => []
  | x :: l' => py_insert x (py_sort l')
  end.

(** ** FCFS *)

(** [order[i] - (head if i == 0 else order[i - 1])] in absolute value.
    Every index used is in range, the default of [nth] is never read. *)
Definition fcfs_term (order : list Z) (head : Z) (i : nat) : Z :=
  Z.abs (nth i order 0 - (if Nat.eqb i 0 then head else nth (i - 1) order 0)).

(** [requests.copy()] gives a list with the same items; that it is a new
    object is modelled by [fcfs_h] below. *)
Definition fcfs (requests : list Z) (head : Z) : list Z * Z :=
  let order := requests in
  let distance :=
    py_sum (map (fcfs_term order head) (seq 0 (length order))) in
  (order, distance).

(** ** SSTF *)

(** The local variables of the [while] loop. *)
Record sstf_state : Type := mk_sstf {
  st_pending : list Z;
  st_order : list Z;
  st_total : Z;
  st_curr : Z
}.

(** One run of the loop body; [None] stands for an exception. *)
Definition sstf_body (st : sstf_state) : option sstf_state :=
  match py_min (fun x => Z.abs (x - st_curr st)) (st_pending st) with
  | None => None
  | Some nearest =>
      match py_remove nearest (st_pending st) with
      | None => None
      | Some pending' =>
          Some {| st_pending := pending';
                  st_order := st_order st ++ [nearest];
                  st_total := st_total st + Z.abs (nearest - st_curr st);
                  st_curr := nearest |}
      end
  end.

(** [while pending: body]. *)
Equations? sstf_loop (st : sstf_state) : option sstf_state
  by wf (length (st_pending st)) lt :=
  sstf_loop st with inspect (st_pending st) => {
    | exist _ [] _ := Some st;
    | exist _ (_ :: _) _ with inspect (sstf_body st) => {
        | exist _ (Some st') Hb := sstf_loop st';
        | exist _ None _ := None } }.
Proof.
  unfold sstf_body in Hb.
  destruct (py_min _ (st_pending st)) as [nearest|]; [|discriminate].
  destruct (py_remove nearest (st_pending st)) as [p|] eqn:E; [|discriminate].
  injection Hb as <-. cbn [st_pending].
  revert p E. generalize (st_pending st) as q.
  induction q as [|y q IH]; intros p E; simpl in E; [discriminate|].
  destruct (y =? nearest).
  - injection E as <-. simpl. lia.
  - destruct (py_remove nearest q) as [r|]; [|discriminate].
    injection E as <-. specialize (IH r eq_refl). simpl. lia.
Qed.

(** [pending = requests.copy()] and [order, total, curr = [], 0, head]. *)
Definition sstf_init (requests : list Z) (head : Z) : sstf_state :=
  {| st_pending := requests; st_order := []; st_total := 0; st_curr := head |}.

Definition sstf (requests : list Z) (head : Z) : option (list Z * Z) :=
  match sstf_loop (sstf_init requests head) with
  | Some st => Some (st_order st, st_total st)
  | None => None
  end.

(** The state after [k] runs of the loop body. *)
Fixpoint sstf_iter (k : nat) (st : sstf_state) : option sstf_state :=
  match k with
  | O => Some st
  | S k' =>
      match sstf_body st with
      | Some st' => sstf_iter k' st'
      | None => None
      end
  end.

(** ** SCAN and C-SCAN *)

(** The body shared by every [for r in ...] loop of [scan] and [cscan],
    on the triple [(seek_sequence, total, curr)]. *)
Definition visit (st : list Z * Z * Z) (r : Z) : list Z * Z * Z :=
  let '(seek_sequence, total, curr) := st in
  (seek_sequence ++ [r], total + Z.abs (curr - r), r).

Definition sweep (st : list Z * Z * Z) (rs : list Z) : list Z * Z * Z :=
  fold_left visit rs st.

(** [direction == 'left']. *)
Definition is_left (direction : String.string) : bool :=
  String.eqb direction "left"%string.

(** [left = [r for r in requests if r < head]; left.sort()] and the same
    for [right] with [r >= head]: the first four lines of both functions. *)
Definition left_of (requests : list Z) (head : Z) : list Z :=
  py_sort (filter (fun r => r <? head) requests).

Definition right_of (requests : list Z) (head : Z) : list Z :=
  py_sort (filter (fun r => r >=? head) requests).

Definition scan (requests : list Z) (head : Z) (direction : String.string)
    (disk_size : Z) : list Z * Z :=
  let left := left_of requests head in
  let right := right_of requests head in
  let st := ([], 0, head) in
  if is_left direction then
    let '(seek_sequence, total, curr) := sweep st (rev left) in
    let total := total + curr in
    let curr := 0 in
    let '(seek_sequence, total, curr) :=
      sweep (seek_sequence, total, curr) right in
    (seek_sequence, total)
  else
    let '(seek_sequence, total, curr) := sweep st right in
    let total := total + Z.abs ((disk_size - 1) - curr) in
    let curr := disk_size - 1 in
    let '(seek_sequence, total, curr) :=
      sweep (seek_sequence, total, curr) (rev left) in
    (seek_sequence, total).

Definition cscan (requests : list Z) (head : Z) (direction : String.string)
    (disk_size : Z) : list Z * Z :=
  let left := left_of requests head in
  let right := right_of requests head in
  let st := ([], 0, head) in
  if is_left direction then
    let '(seek_sequence, total, curr) := sweep st (rev left) in
    let total := total + curr in
    let curr := disk_size - 1 in
    let '(seek_sequence, total, curr) :=
      sweep (seek_sequence, total, curr) (rev right) in
    (seek_sequence, total)
  else
    let '(seek_sequence, total, curr) := sweep st right in
    let total := total + Z.abs ((disk_size - 1) - curr) in
    let curr := 0 in
    let '(seek_sequence, total, curr) :=
      sweep (seek_sequence, total, curr) left in
    (seek_sequence, total).

(** The input of the reference scenario. *)
Definition reference_requests : list Z := [82; 170; 43; 140; 24; 16; 190].

(** ** Seek distance of a path *)

(** The length of the path [start -> l[0] -> l[1] -> ...]: the sum of the
    absolute differences of consecutive positions. *)
Fixpoint path_dist (start : Z) (l : list Z) : Z :=
  match l with
  | [] => 0
  | x :: l' => Z.abs (start - x) + path_dist x l'
  end.

(** The sum of [|l[i] - l[i-1]|] over the consecutive pairs of [l]. *)
Definition pairs_dist (l : list Z) : Z :=
  match l with
  | [] => 0
  | x :: l' => path_dist x l'
  end.

(** ** Specification-side definitions *)

(** [l] splits as [l1 ++ m :: l2] at the first item of least key: every
    item before [m] has a strictly larger key, none after it a smaller. *)
Definition first_min (key : Z -> Z) (l l1 : list Z) (m : Z) (l2 : list Z)
    : Prop :=
  l = l1 ++ m :: l2 /\
  (forall y, In y l1 -> key m < key y) /\
  (forall y, In y l2 -> key m <= key y).

(** The C-SCAN total as the specification words it: both legs, the hop to
    the boundary the first leg heads for, and the repositioning jump
    between cylinder [0] and cylinder [disk_size - 1] charged as
    [disk_size - 1]. *)
Definition cscan_total_with_jump (requests : list Z) (head : Z)
    (direction : String.string) (disk_size : Z) : Z :=
  let left := left_of requests head in
  let right := right_of requests head in
  if is_left direction then
    path_dist head (rev left) + Z.abs (last (rev left) head - 0) +
    (disk_size - 1) + path_dist (disk_size - 1) (rev right)
  else
    path_dist head right + Z.abs ((disk_size - 1) - last right head) +
    (disk_size - 1) + path_dist 0 left.

(** ** The schedulers on a store of list objects *)

(** A Python list is an object reached through a reference; [copy], a
    comprehension and [[]] make a new object, [append], [remove] and
    [sort] change an object in place.  The store holds the list objects,
    a reference is an index in it, and a computation maps a store to a
    result and a new store, or to [None] for an exception. *)
Definition loc : Type := nat.
Definition store : Type := list (list Z).
Definition M (A : Type) : Type := store -> option (A * store).

Definition ret {A : Type} (a : A) : M A := fun h => Some (a, h).

Definition bind {A B : Type} (m : M A) (f : A -> M B) : M B :=
  fun h => match m h with
           | Some (a, h') => f a h'
           | None => None
           end.

Definition raise {A : Type} : M A := fun _ => None.

Notation "x <- m ;; k" := (bind m (fun x => k))
  (at level 61, m at next level, right associativity).
Notation "m ;;; k" := (bind m (fun _ => k))
  (at level 61, right associativity).

Fixpoint set_nth (h : store) (l : loc) (v : list Z) : store :=
  match h, l with
  | [], _ => []
  | _ :: h', O => v :: h'
  | x :: h', S l' => x :: set_nth h' l' v
  end.

Definition fetch (l : loc) : M (list Z) :=
  fun h => match nth_error h l with
           | Some v => Some (v, h)
           | None => None
           end.

Definition put (l : loc) (v : list Z) : M unit :=
  fun h => if (l <? length h)%nat then Some (tt, set_nth h l v) else None.

Definition alloc (v : list Z) : M loc :=
  fun h => Some (length h, h ++ [v]).

(** [l.copy()], [[]], [[r for r in l if p(r)]]: a new object. *)
Definition list_copy (l : loc) : M loc := v <- fetch l ;; alloc v.
Definition list_new : M loc := alloc [].
Definition list_comp (p : Z -> bool) (l : loc) : M loc :=
  v <- fetch l ;; alloc (filter p v).

(** [l.append(x)], [l.remove(x)], [l.sort()]: the object itself changes. *)
Definition list_append (l : loc) (x : Z) : M unit :=
  v <- fetch l ;; put l (v ++ [x]).
Definition list_remove (l : loc) (x : Z) : M unit :=
  v <- fetch l ;;
  match py_remove x v with
  | Some v' => put l v'
  | None => raise
  end.
Definition list_sort (l : loc) : M unit :=
  v <- fetch l ;; put l (py_sort v).

Definition fcfs_h (requests : loc) (head : Z) : M (loc * Z) :=
  order <- list_copy requests ;;
  o <- fetch order ;;
  ret (order, py_sum (map (fcfs_term o head) (seq 0 (length o)))).

(** The [while] loop of [sstf]; it gives up when [fuel] iterations were
    not enough. *)
Fixpoint sstf_while_h (fuel : nat) (pending order : loc) (total curr : Z)
    : M Z :=
  p <- fetch pending ;;
  match p with
  | [] => ret total
  | _ :: _ =>
      match fuel with
      | O => raise
      | S fuel' =>
          match py_min (fun x => Z.abs (x - curr)) p with
          | None => raise
          | Some nearest =>
              list_append order nearest ;;;
              list_remove pending nearest ;;;
              sstf_while_h fuel' pending order
                (total + Z.abs (nearest - curr)) nearest
          end
      end
  end.

Definition sstf_h (fuel : nat) (requests : loc) (head : Z) : M (loc * Z) :=
  pending <- list_copy requests ;;
  order <- list_new ;;
  total <- sstf_while_h fuel pending order 0 head ;;
  ret (order, total).

(** A [for r in rs] loop of [scan] and [cscan]; [rs] are the items of the
    list iterated, which the body does not touch. *)
Fixpoint sweep_h (seek_sequence : loc) (rs : list Z) (total curr : Z)
    : M (Z * Z) :=
  match rs with
  | [] => ret (total, curr)
  | r :: rs' =>
      list_append seek_sequence r ;;;
      sweep_h seek_sequence rs' (total + Z.abs (curr - r)) r
  end.

Definition scan_h (requests : loc) (head : Z) (direction : String.string)
    (disk_size : Z) : M (loc * Z) :=
  left <- list_comp (fun r => r <? head) requests ;;
  right <- list_comp (fun r => r >=? head) requests ;;
  list_sort left ;;;
  list_sort right ;;;
  seek_sequence <- list_new ;;
  if is_left direction then
    l <- fetch left ;;
    tc <- sweep_h seek_sequence (rev l) 0 head ;;
    r <- fetch right ;;
    tc' <- sweep_h seek_sequence r (fst tc + snd tc) 0 ;;
    ret (seek_sequence, fst tc')
  else
    r <- fetch right ;;
    tc <- sweep_h seek_sequence r 0 head ;;
    l <- fetch left ;;
    tc' <- sweep_h seek_sequence (rev l)
             (fst tc + Z.abs ((disk_size - 1) - snd tc)) (disk_size - 1) ;;
    ret (seek_sequence, fst tc').

Definition cscan_h (requests : loc) (head : Z) (direction : String.string)
    (disk_size : Z) : M (loc * Z) :=
  left <- list_comp (fun r => r <? head) requests ;;
  right <- list_comp (fun r => r >=? head) requests ;;
  list_sort left ;;;
  list_sort right ;;;
  seek_sequence <- list_new ;;
  if is_left direction then
    l <- fetch left ;;
    tc <- sweep_h seek_sequence (rev l) 0 head ;;
    r <- fetch right ;;
    tc' <- sweep_h seek_sequence (rev r) (fst tc + snd tc) (disk_size - 1) ;;
    ret (seek_sequence, fst tc')
  else
    r <- fetch right ;;
    tc <- sweep_h seek_sequence r 0 head ;;
    l <- fetch left ;;
    tc' <- sweep_h seek_sequence l
             (fst tc + Z.abs ((disk_size - 1) - snd tc)) 0 ;;
    ret (seek_sequence, fst tc').

(** A call on the store [h] returns [result]: the total, and a reference
    to a list holding the seek sequence; every list object that was in
    the store before the call holds the same items afterwards. *)
Definition returns_preserving (m : M (loc * Z)) (h : store)
    (result : list Z * Z) : Prop :=
  exists o h',
    m h = Some ((o, snd result), h') /\
    nth_error h' o = Some (fst result) /\
    forall l v, nth_error h l = Some v -> nth_error h' l = Some v.

(** ** The data plotted by [plot_schedule] *)

(** [points = [head] + order], [x = list(range(len(points)))] and
    [y = points]: the two series handed to [ax.plot]. *)
Definition plot_points (head : Z) (order : list Z) : list nat * list Z :=
  let points := [head] ++ order in
  let x := seq 0 (length points) in
  let y := points in
  (x, y).

(** ** Largest and smallest request *)

(** The largest item of [l], or [d] when it is larger or [l] is empty;
    the smallest item likewise. *)
Definition max_of (d : Z) (l : list Z) : Z := fold_right Z.max d l.
Definition min_of (d : Z) (l : list Z) : Z := fold_right Z.min d l.

(** ** Lemmas on the built-ins *)

Lemma py_remove_length x l r :
  py_remove x l = Some r -> S (length r) = length l.
Proof.
  revert r; induction l as [|y l IH]; simpl; intros r H; [discriminate|].
  destruct (y =? x).
  - now inversion H.
  - destruct (py_remove x l) as [r'|]; [|discriminate].
    inversion H; subst; simpl. now rewrite (IH r' eq_refl).
Qed.

Lemma sstf_body_length st st' :
  sstf_body st = Some st' ->
  S (length (st_pending st')) = length (st_pending st).
Proof.
  unfold sstf_body; intros H.
  destruct (py_min _ _) as [n|]; [|discriminate].
  destruct (py_remove n (st_pending st)) as [p|] eqn:E; [|discriminate].
  inversion H; subst; simpl. now apply py_remove_length in E.
Qed.

Lemma fold_add_shift (xs : list Z) (a : Z) :
  fold_left Z.add xs a = a + fold_left Z.add xs 0.
Proof.
  revert a; induction xs as [|x xs IH]; intros a; simpl; [lia|].
  rewrite (IH (a + x)), (IH x). lia.
Qed.

Lemma py_sum_cons (x : Z) (xs : list Z) : py_sum (x :: xs) = x + py_sum xs.
Proof. unfold py_sum; simpl. apply fold_add_shift. Qed.

Lemma py_insert_perm (x : Z) (l : list Z) :
  Permutation (py_insert x l) (x :: l).
Proof.
  induction l as [|y l IH]; simpl; [reflexivity|].
  destruct (y <=? x); [|reflexivity].
  rewrite IH. apply perm_swap.
Qed.

Lemma py_sort_perm (l : list Z) : Permutation (py_sort l) l.
Proof.
  induction l as [|x l IH]; simpl; [reflexivity|].
  rewrite py_insert_perm. now constructor.
Qed.

Lemma py_insert_sorted (x : Z) (l : list Z) :
  Sorted Z.le l -> Sorted Z.le (py_insert x l).
Proof.
  induction l as [|y l IH]; simpl; intros Hs; [repeat constructor|].
  destruct (Z.leb_spec y x) as [Hle|Hgt].
  - inversion Hs as [|? ? Hl Hhd]; subst. constructor; [now apply IH|].
    destruct l as [|z l]; simpl; [constructor; lia|].
    inversion Hhd; subst. destruct (z <=? x); constructor; lia.
  - constructor; [assumption|]. constructor; lia.
Qed.

Lemma py_sort_sorted (l : list Z) : Sorted Z.le (py_sort l).
Proof.
  induction l as [|x l IH]; simpl; [constructor|now apply py_insert_sorted].
Qed.

Lemma split_perm (head : Z) (l : list Z) :
  Permutation (filter (fun r => r <? head) l ++
               filter (fun r => r >=? head) l) l.
Proof.
  induction l as [|x l IH]; simpl; [reflexivity|].
  rewrite Z.geb_leb. destruct (Z.ltb_spec x head) as [Hlt|Hge].
  - replace (head <=? x) with false by (symmetry; apply Z.leb_gt; lia).
    simpl. now constructor.
  - replace (head <=? x) with true by (symmetry; apply Z.leb_le; lia).
    rewrite <- Permutation_middle. now constructor.
Qed.

Lemma sides_perm (requests : list Z) (head : Z) :
  Permutation (left_of requests head ++ right_of requests head) requests.
Proof.
  unfold left_of, right_of. rewrite !py_sort_perm. apply split_perm.
Qed.

(** ** Lemmas on the sweeps of SCAN and C-SCAN *)

Lemma last_cons (x d : Z) (l : list Z) : last (x :: l) d = last l x.
Proof.
  revert x d; induction l as [|y l IH]; intros x d; [reflexivity|].
  change (last (x :: y :: l) d) with (last (y :: l) d).
  now rewrite (IH y d), (IH y x).
Qed.

Lemma sweep_spec (rs s : list Z) (t c : Z) :
  sweep (s, t, c) rs = (s ++ rs, t + path_dist c rs, last rs c).
Proof.
  unfold sweep. revert s t c; induction rs as [|r rs IH]; intros s t c.
  - simpl. now rewrite app_nil_r, Z.add_0_r.
  - cbn [fold_left visit]. rewrite IH. cbn [path_dist].
    rewrite <- app_assoc, last_cons. cbn [app]. f_equal. f_equal. lia.
Qed.

(** ** Lemmas on the SSTF loop *)

Section MinByKey.
Variable key : Z -> Z.

Lemma py_min_from_inv (xs pre post : list Z) (best : Z) :
  first_min key (pre ++ best :: post) pre best post ->
  exists l1 l2,
    first_min key (pre ++ best :: post ++ xs) l1 (py_min_from key best xs) l2.
Proof.
  unfold py_min_from.
  revert pre post best; induction xs as [|y xs IH]; intros pre post best H.
  - exists pre, post. now rewrite app_nil_r.
  - destruct H as (_ & Hpre & Hpost). cbn [fold_left].
    destruct (Z.ltb_spec (key y) (key best)) as [Hlt|Hge].
    + destruct (IH (pre ++ best :: post) [] y) as (l1 & l2 & H1 & H2 & H3).
      { split; [reflexivity|]. split; [|intros ? []].
        intros z Hz. apply in_app_or in Hz. destruct Hz as [Hz|[<-|Hz]].
        - specialize (Hpre z Hz). lia.
        - assumption.
        - specialize (Hpost z Hz). lia. }
      exists l1, l2. split; [|now split].
      rewrite <- H1. rewrite <- !app_assoc. reflexivity.
    + destruct (IH pre (post ++ [y]) best) as (l1 & l2 & H1 & H2 & H3).
      { split; [reflexivity|]. split; [assumption|].
        intros z Hz. apply in_app_or in Hz. destruct Hz as [Hz|[<-|[]]].
        - now apply Hpost.
        - assumption. }
      exists l1, l2. split; [|now split].
      rewrite <- H1. rewrite <- !app_assoc. reflexivity.
Qed.

Lemma py_min_first (x : Z) (xs : list Z) :
  exists m l1 l2,
    py_min key (x :: xs) = Some m /\ first_min key (x :: xs) l1 m l2.
Proof.
  destruct (py_min_from_inv xs [] [] x) as (l1 & l2 & H).
  - split; [reflexivity|]. split; intros ? [].
  - exists (py_min_from key x xs), l1, l2. now split.
Qed.
End MinByKey.

Lemma py_remove_first (m : Z) (l1 l2 : list Z) :
  ~ In m l1 -> py_remove m (l1 ++ m :: l2) = Some (l1 ++ l2).
Proof.
  induction l1 as [|y l1 IH]; intros Hn; simpl.
  - now rewrite Z.eqb_refl.
  - destruct (Z.eqb_spec y m) as [->|Hne]; [exfalso; apply Hn; now left|].
    rewrite IH; [reflexivity|]. intros Hin; apply Hn; now right.
Qed.

(** What one run of the loop body does on a non-empty [pending]. *)
Lemma sstf_body_spec (st : sstf_state) :
  st_pending st <> [] ->
  exists l1 nearest l2,
    first_min (fun x => Z.abs (x - st_curr st)) (st_pending st) l1 nearest l2 /\
    sstf_body st =
      Some {| st_pending := l1 ++ l2;
              st_order := st_order st ++ [nearest];
              st_total := st_total st + Z.abs (nearest - st_curr st);
              st_curr := nearest |}.
Proof.
  intros Hne. unfold sstf_body.
  destruct (st_pending st) as [|x xs] eqn:E; [congruence|].
  destruct (py_min_first (fun x => Z.abs (x - st_curr st)) x xs)
    as (m & l1 & l2 & Hmin & Hfirst).
  exists l1, m, l2. split; [assumption|].
  rewrite Hmin. destruct Hfirst as (-> & Hpre & _).
  rewrite py_remove_first; [reflexivity|].
  intros Hin. specialize (Hpre m Hin). simpl in Hpre. lia.
Qed.

Lemma sstf_body_empty (st : sstf_state) :
  st_pending st = [] -> sstf_body st = None.
Proof. intros E. unfold sstf_body. now rewrite E. Qed.

Lemma sstf_iter_length (k : nat) (st st' : sstf_state) :
  sstf_iter k st = Some st' ->
  (length (st_pending st') + k = length (st_pending st))%nat.
Proof.
  revert st; induction k as [|k IH]; intros st H; simpl in H.
  - inversion H; subst. lia.
  - destruct (sstf_body st) as [st1|] eqn:E; [|discriminate].
    apply sstf_body_length in E. apply IH in H. lia.
Qed.

Lemma sstf_iter_defined (k : nat) (st : sstf_state) :
  (k <= length (st_pending st))%nat -> exists st', sstf_iter k st = Some st'.
Proof.
  revert st; induction k as [|k IH]; intros st Hk; simpl.
  - now exists st.
  - assert (Hne : st_pending st <> []).
    { intros E. rewrite E in Hk. simpl in Hk. lia. }
    destruct (sstf_body_spec st Hne) as (l1 & m & l2 & _ & E).
    rewrite E. apply IH. apply sstf_body_length in E. lia.
Qed.

(** The [while] loop is the body run once per pending request. *)
Lemma sstf_loop_iter (st : sstf_state) :
  sstf_loop st = sstf_iter (length (st_pending st)) st.
Proof.
  funelim (sstf_loop st).
  - rewrite e. reflexivity.
  - rewrite H. pose proof (sstf_body_length _ _ Hb) as Hl.
    rewrite <- Hl. simpl. now rewrite Hb.
  - rewrite e. simpl. now rewrite e0.
Qed.

Lemma sstf_iter_perm (k : nat) (st st' : sstf_state) :
  sstf_iter k st = Some st' ->
  Permutation (st_order st' ++ st_pending st') (st_order st ++ st_pending st).
Proof.
  revert st; induction k as [|k IH]; intros st H; simpl in H.
  - now inversion H.
  - destruct (st_pending st) as [|x xs] eqn:E.
    + now rewrite sstf_body_empty in H.
    + destruct (sstf_body_spec st) as (l1 & m & l2 & (Hp & _) & Hb);
        [congruence|].
      rewrite Hb in H. apply IH in H. rewrite H. simpl.
      rewrite <- E, Hp, <- app_assoc. apply Permutation_app_head.
      simpl. apply Permutation_middle.
Qed.

(** SSTF raises no exception: the loop ends with [pending] empty after
    one run of the body per request. *)
Lemma sstf_returns (requests : list Z) (head : Z) :
  exists st,
    sstf_iter (length requests) (sstf_init requests head) = Some st /\
    st_pending st = [] /\
    sstf requests head = Some (st_order st, st_total st).
Proof.
  destruct (sstf_iter_defined (length requests) (sstf_init requests head))
    as (st & Hst); [reflexivity|].
  exists st. split; [assumption|].
  pose proof (sstf_iter_length _ _ _ Hst) as Hl. simpl in Hl.
  split.
  - destruct (st_pending st); [reflexivity|simpl in Hl; lia].
  - unfold sstf. rewrite sstf_loop_iter. simpl. now rewrite Hst.
Qed.

(** ** The schedulers on the reference scenario *)

Example fcfs_reference :
  fcfs reference_requests 50 = ([82; 170; 43; 140; 24; 16; 190], 642).
Proof. reflexivity. Qed.

Example sstf_reference :
  sstf reference_requests 50 = Some ([43; 24; 16; 82; 140; 170; 190], 208).
Proof. reflexivity. Qed.

Example scan_left_reference :
  scan reference_requests 50 "left" 200
  = ([43; 24; 16; 82; 140; 170; 190], 240).
Proof. reflexivity. Qed.

Example cscan_left_reference :
  cscan reference_requests 50 "left" 200
  = ([43; 24; 16; 190; 170; 140; 82], 167).
Proof. reflexivity. Qed.

(** ** Properties of the schedulers *)

(** C4: for every request queue, duplicates included, every head position,
    direction and disk size, the seek sequence returned by each of FCFS,
    SSTF, SCAN and C-SCAN is a permutation of the request queue. *)
Theorem seek_sequence_permutation (requests : list Z) (head : Z)
    (direction : String.string) (disk_size : Z) :
  Permutation (fst (fcfs requests head)) requests /\
  (exists order total,
      sstf requests head = Some (order, total) /\
      Permutation order requests) /\
  Permutation (fst (scan requests head direction disk_size)) requests /\
  Permutation (fst (cscan requests head direction disk_size)) requests.
Proof.
  split; [reflexivity|]. split; [|split].
  - destruct (sstf_returns requests head) as (st & Hit & Hp & Hs).
    exists (st_order st), (st_total st). split; [assumption|].
    apply sstf_iter_perm in Hit. rewrite Hp, app_nil_r in Hit. exact Hit.
  - unfold scan. destruct (is_left direction); rewrite !sweep_spec; simpl.
    + rewrite <- Permutation_rev. apply sides_perm.
    + rewrite <- Permutation_rev, Permutation_app_comm. apply sides_perm.
  - unfold cscan. destruct (is_left direction); rewrite !sweep_spec; simpl.
    + rewrite <- !Permutation_rev. apply sides_perm.
    + rewrite Permutation_app_comm. apply sides_perm.
Qed.

(** C10: SCAN with direction ['left'] returns the same seek sequence and
    the same total whatever the disk size. *)
Theorem scan_left_ignores_disk_size (requests : list Z) (head d1 d2 : Z) :
  scan requests head "left" d1 = scan requests head "left" d2.
Proof. reflexivity. Qed.

(** *** FCFS *)

Lemma fcfs_term_shift (x head : Z) (l : list Z) (i : nat) :
  fcfs_term (x :: l) head (S i) = fcfs_term l x i.
Proof.
  unfold fcfs_term. cbn [Nat.eqb nth]. rewrite Nat.sub_succ, Nat.sub_0_r.
  destruct i as [|j]; cbn [Nat.eqb nth]; [reflexivity|].
  now rewrite Nat.sub_succ, Nat.sub_0_r.
Qed.

Lemma fcfs_distance (l : list Z) (head : Z) :
  py_sum (map (fcfs_term l head) (seq 0 (length l))) = path_dist head l.
Proof.
  revert head; induction l as [|x l IH]; intros head; [reflexivity|].
  cbn [length seq map]. rewrite py_sum_cons, <- seq_shift, map_map.
  rewrite (map_ext _ _ (fcfs_term_shift x head l)), IH.
  unfold fcfs_term. cbn [Nat.eqb nth path_dist]. lia.
Qed.

(** C5: on a non-empty request queue FCFS returns the queue unchanged, and
    as total the distance from the head to the first request plus the sum
    of the distances between consecutive requests; on the reference input
    with head 50 the total is 642. *)
Theorem fcfs_order_and_total (requests : list Z) (head : Z) :
  requests <> [] ->
  fcfs requests head =
    (requests, Z.abs (head - hd 0 requests) + pairs_dist requests) /\
  fcfs [82; 170; 43; 140; 24; 16; 190] 50 =
    ([82; 170; 43; 140; 24; 16; 190], 642).
Proof.
  intros Hne. split; [|reflexivity].
  unfold fcfs. rewrite fcfs_distance.
  destruct requests as [|x l]; [congruence|reflexivity].
Qed.

Lemma fcfs_order_and_total_witness :
  [82; 170; 43] <> [] /\
  (fcfs [82; 170; 43] 50 =
     ([82; 170; 43], Z.abs (50 - hd 0 [82; 170; 43]) + pairs_dist [82; 170; 43]) /\
   fcfs [82; 170; 43; 140; 24; 16; 190] 50 =
     ([82; 170; 43; 140; 24; 16; 190], 642)).
Proof.
  split; [discriminate|].
  apply (fcfs_order_and_total [82; 170; 43] 50). discriminate.
Defined.

(** *** The empty request queue *)

(** C2 as stated fails: SCAN towards the left on the empty queue with the
    head at 50 returns the total 50, the hop down to cylinder 0. *)
Lemma empty_queue_total_not_zero :
  ~ (forall (head : Z) (direction : String.string) (disk_size : Z),
        fcfs [] head = ([], 0) /\
        sstf [] head = Some ([], 0) /\
        scan [] head direction disk_size = ([], 0) /\
        cscan [] head direction disk_size = ([], 0)).
Proof.
  intros H. destruct (H 50 "left"%string 200) as (_ & _ & Hscan & _).
  vm_compute in Hscan. discriminate.
Qed.

(** C2, amended: on the empty request queue all four algorithms return the
    empty seek sequence; FCFS and SSTF return the total 0, SCAN and C-SCAN
    return the boundary hop: [head] for direction ['left'] and
    [|disk_size - 1 - head|] otherwise. *)
Theorem empty_queue (head : Z) (direction : String.string) (disk_size : Z) :
  fcfs [] head = ([], 0) /\
  sstf [] head = Some ([], 0) /\
  scan [] head direction disk_size =
    ([], if is_left direction then head else Z.abs (disk_size - 1 - head)) /\
  cscan [] head direction disk_size =
    ([], if is_left direction then head else Z.abs (disk_size - 1 - head)).
Proof.
  repeat split; try reflexivity.
  - unfold scan. destruct (is_left direction); reflexivity.
  - unfold cscan. destruct (is_left direction); reflexivity.
Qed.

(** *** SCAN and C-SCAN: the boundary hop and the wraparound *)

Lemma last_or_in (l : list Z) (d : Z) : last l d = d \/ In (last l d) l.
Proof.
  revert d; induction l as [|x l IH]; intros d; [now left|].
  rewrite last_cons. right.
  destruct (IH x) as [->|H]; [now left|now right].
Qed.

Lemma left_of_in (requests : list Z) (head x : Z) :
  In x (left_of requests head) -> In x requests /\ x < head.
Proof.
  unfold left_of. intros H.
  apply (Permutation_in _ (py_sort_perm _)) in H.
  apply filter_In in H. destruct H as (H & Hlt). split; [assumption|lia].
Qed.

Lemma right_of_in (requests : list Z) (head x : Z) :
  In x (right_of requests head) -> In x requests /\ head <= x.
Proof.
  unfold right_of. intros H.
  apply (Permutation_in _ (py_sort_perm _)) in H.
  apply filter_In in H. destruct H as (H & Hge). split; [assumption|lia].
Qed.

Lemma left_of_none (requests : list Z) (head : Z) :
  Forall (fun r => head <= r) requests -> left_of requests head = [].
Proof.
  intros H. destruct (left_of requests head) as [|x l] eqn:E; [reflexivity|].
  destruct (left_of_in requests head x) as (Hin & Hlt); [rewrite E; now left|].
  rewrite Forall_forall in H. specialize (H x Hin). lia.
Qed.

Lemma right_of_none (requests : list Z) (head : Z) :
  Forall (fun r => r < head) requests -> right_of requests head = [].
Proof.
  intros H. destruct (right_of requests head) as [|x l] eqn:E; [reflexivity|].
  destruct (right_of_in requests head x) as (Hin & Hge); [rewrite E; now left|].
  rewrite Forall_forall in H. specialize (H x Hin). lia.
Qed.

(** The position reached at the end of the leftward leg is a cylinder of
    the disk when the head and the requests are. *)
Lemma left_leg_end_nonneg (requests : list Z) (head : Z) :
  0 <= head -> Forall (fun r => 0 <= r) requests ->
  0 <= last (rev (left_of requests head)) head.
Proof.
  intros Hh Hr. destruct (last_or_in (rev (left_of requests head)) head)
    as [->|Hin]; [assumption|].
  apply in_rev, left_of_in in Hin. rewrite Forall_forall in Hr.
  now apply Hr.
Qed.

Lemma scan_eq (requests : list Z) (head : Z) (direction : String.string)
    (disk_size : Z) :
  let left := left_of requests head in
  let right := right_of requests head in
  scan requests head direction disk_size =
    if is_left direction then
      (rev left ++ right,
       path_dist head (rev left) + last (rev left) head + path_dist 0 right)
    else
      (right ++ rev left,
       path_dist head right + Z.abs (disk_size - 1 - last right head) +
       path_dist (disk_size - 1) (rev left)).
Proof.
  unfold scan. destruct (is_left direction); rewrite !sweep_spec; reflexivity.
Qed.

Lemma cscan_eq (requests : list Z) (head : Z) (direction : String.string)
    (disk_size : Z) :
  let left := left_of requests head in
  let right := right_of requests head in
  cscan requests head direction disk_size =
    if is_left direction then
      (rev left ++ rev right,
       path_dist head (rev left) + last (rev left) head +
       path_dist (disk_size - 1) (rev right))
    else
      (right ++ left,
       path_dist head right + Z.abs (disk_size - 1 - last right head) +
       path_dist 0 left).
Proof.
  unfold cscan. destruct (is_left direction); rewrite !sweep_spec; reflexivity.
Qed.

(** C6: SCAN always charges the hop to the sweep boundary.  With the head
    and the requests on the disk (no negative cylinder), the total for
    direction ['left'] is the leftward leg, plus the distance from the
    position where that leg ends down to cylinder 0, plus the rightward
    leg measured from 0; when no request is below the head that position
    is the head itself and the hop [|head - 0|] is still charged.  For the
    other direction the hop is the one up to [disk_size - 1]. *)
Theorem scan_boundary_hop (requests : list Z) (head : Z)
    (direction : String.string) (disk_size : Z) :
  0 <= head -> Forall (fun r => 0 <= r) requests ->
  let left := left_of requests head in
  let right := right_of requests head in
  let total := snd (scan requests head direction disk_size) in
  (is_left direction = true ->
     total = path_dist head (rev left) + Z.abs (last (rev left) head - 0) +
             path_dist 0 right) /\
  (is_left direction = true -> Forall (fun r => head <= r) requests ->
     total = Z.abs (head - 0) + path_dist 0 right) /\
  (is_left direction = false ->
     total = path_dist head right +
             Z.abs ((disk_size - 1) - last right head) +
             path_dist (disk_size - 1) (rev left)) /\
  (is_left direction = false -> Forall (fun r => r < head) requests ->
     total = Z.abs ((disk_size - 1) - head) +
             path_dist (disk_size - 1) (rev left)).
Proof.
  intros Hh Hr left right total.
  pose proof (left_leg_end_nonneg requests head Hh Hr) as Hend.
  subst total. rewrite scan_eq. fold left right. fold left in Hend.
  repeat split; intros Hd; rewrite Hd; cbn [snd].
  - rewrite Z.sub_0_r, Z.abs_eq by assumption. reflexivity.
  - intros Hnone. subst left. rewrite (left_of_none _ _ Hnone).
    cbn [rev last path_dist]. rewrite Z.sub_0_r, Z.abs_eq by assumption. lia.
  - reflexivity.
  - intros Hnone. subst right. rewrite (right_of_none _ _ Hnone).
    cbn [last path_dist]. lia.
Qed.

Lemma scan_boundary_hop_witness :
  0 <= 50 /\ Forall (fun r => 0 <= r) [82; 170] /\
  is_left "left" = true /\ Forall (fun r => 50 <= r) [82; 170] /\
  snd (scan [82; 170] 50 "left" 200) =
    Z.abs (50 - 0) + path_dist 0 (right_of [82; 170] 50).
Proof.
  assert (H0 : 0 <= 50) by lia.
  assert (H1 : Forall (fun r => 0 <= r) [82; 170])
    by (repeat constructor; lia).
  assert (H2 : Forall (fun r => 50 <= r) [82; 170])
    by (repeat constructor; lia).
  split; [exact H0|]. split; [exact H1|]. split; [reflexivity|].
  split; [exact H2|].
  destruct (scan_boundary_hop [82; 170] 50 "left" 200 H0 H1)
    as (_ & H & _).
  apply H; [reflexivity|assumption].
Defined.

(** C1 as stated fails: on the reference scenario C-SCAN returns 167 for
    direction ['left'] and 192 for ['right'], where charging the jump
    gives 366 and 391. *)
Lemma cscan_jump_not_charged :
  reference_requests <> [] /\
  snd (cscan reference_requests 50 "left" 200) <>
    cscan_total_with_jump reference_requests 50 "left" 200 /\
  snd (cscan reference_requests 50 "right" 200) <>
    cscan_total_with_jump reference_requests 50 "right" 200.
Proof.
  split; [discriminate|]. split; vm_compute; discriminate.
Qed.

(** C1, amended: with the head and the requests on the disk, the C-SCAN
    total for direction ['left'] is the leftward leg, plus the hop from
    where it ends down to cylinder 0, plus the second leg measured from
    [disk_size - 1]; for another direction it is the rightward leg, plus
    the hop up to [disk_size - 1], plus the second leg measured from 0.
    The repositioning jump between the two boundaries is not charged: the
    total is [disk_size - 1] short of the total that charges it. *)
Theorem cscan_total_without_jump (requests : list Z) (head : Z)
    (direction : String.string) (disk_size : Z) :
  0 <= head -> Forall (fun r => 0 <= r) requests ->
  let left := left_of requests head in
  let right := right_of requests head in
  let total := snd (cscan requests head direction disk_size) in
  (is_left direction = true ->
     total = path_dist head (rev left) + Z.abs (last (rev left) head - 0) +
             path_dist (disk_size - 1) (rev right)) /\
  (is_left direction = false ->
     total = path_dist head right +
             Z.abs ((disk_size - 1) - last right head) +
             path_dist 0 left) /\
  total =
    cscan_total_with_jump requests head direction disk_size - (disk_size - 1).
Proof.
  intros Hh Hr left right total.
  pose proof (left_leg_end_nonneg requests head Hh Hr) as Hend.
  subst total. rewrite cscan_eq. unfold cscan_total_with_jump.
  fold left right. fold left in Hend.
  rewrite Z.sub_0_r, (Z.abs_eq _ Hend).
  split; [|split].
  - intros ->. reflexivity.
  - intros ->. reflexivity.
  - destruct (is_left direction); cbn [snd]; lia.
Qed.

Lemma cscan_total_without_jump_witness :
  0 <= 50 /\ Forall (fun r => 0 <= r) reference_requests /\
  snd (cscan reference_requests 50 "left" 200) =
    cscan_total_with_jump reference_requests 50 "left" 200 - (200 - 1).
Proof.
  assert (H0 : 0 <= 50) by lia.
  assert (H1 : Forall (fun r => 0 <= r) reference_requests)
    by (repeat constructor; lia).
  split; [exact H0|]. split; [exact H1|].
  destruct (cscan_total_without_jump reference_requests 50 "left" 200 H0 H1)
    as (_ & _ & H).
  exact H.
Defined.

(** *** SSTF: the choice made at every step *)

(** C7: at every iteration of the SSTF loop the request chosen is a
    pending one whose distance to the current position is at most the
    distance of every pending request. *)
Theorem sstf_greedy (requests : list Z) (head : Z) (k : nat)
    (st : sstf_state) :
  sstf_iter k (sstf_init requests head) = Some st ->
  st_pending st <> [] ->
  exists st',
    sstf_body st = Some st' /\
    st_order st' = st_order st ++ [st_curr st'] /\
    In (st_curr st') (st_pending st) /\
    forall x, In x (st_pending st) ->
      Z.abs (st_curr st' - st_curr st) <= Z.abs (x - st_curr st).
Proof.
  intros _ Hne.
  destruct (sstf_body_spec st Hne) as (l1 & m & l2 & (Hp & H1 & H2) & Hb).
  eexists. split; [exact Hb|]. cbn [st_order st_curr].
  split; [reflexivity|]. rewrite Hp. split.
  - apply in_elt.
  - intros x Hx. apply in_app_or in Hx. destruct Hx as [Hx|[<-|Hx]].
    + specialize (H1 x Hx). simpl in H1. lia.
    + lia.
    + now apply H2.
Qed.

Lemma sstf_greedy_witness :
  sstf_iter 1 (sstf_init [82; 170; 43] 50) =
    Some (mk_sstf [82; 170] [43] 7 43) /\
  [82; 170] <> [] /\
  exists st',
    sstf_body (mk_sstf [82; 170] [43] 7 43) = Some st' /\
    st_order st' = [43] ++ [st_curr st'] /\
    In (st_curr st') [82; 170] /\
    forall x, In x [82; 170] ->
      Z.abs (st_curr st' - 43) <= Z.abs (x - 43).
Proof.
  split; [reflexivity|]. split; [discriminate|].
  apply (sstf_greedy [82; 170; 43] 50 1 (mk_sstf [82; 170] [43] 7 43));
    [reflexivity|discriminate].
Defined.

(** C3 as stated fails: with the head at 50 and the queue [60; 40] both
    requests are at distance 10, and the first step services 60, not the
    lower-valued 40. *)
Lemma sstf_tie_not_lowest :
  ~ (forall (requests : list Z) (head : Z) (k : nat) (st st' : sstf_state),
        sstf_iter k (sstf_init requests head) = Some st ->
        sstf_body st = Some st' ->
        forall x, In x (st_pending st) ->
          Z.abs (x - st_curr st) = Z.abs (st_curr st' - st_curr st) ->
          st_curr st' <= x).
Proof.
  intros H.
  specialize (H [60; 40] 50 0%nat (sstf_init [60; 40] 50)
                (mk_sstf [40] [60] 10 60) eq_refl eq_refl 40).
  simpl in H. assert (60 <= 40) by (apply H; [now right; left|reflexivity]).
  lia.
Qed.

(** C3, amended: at every iteration of the SSTF loop the request chosen is
    the first one, in queue order, among the pending requests at the
    minimum distance from the current position: every pending request
    before it is strictly farther, none after it is nearer, and it is this
    occurrence that leaves the pending list. *)
Theorem sstf_tie_first_in_queue (requests : list Z) (head : Z) (k : nat)
    (st : sstf_state) :
  sstf_iter k (sstf_init requests head) = Some st ->
  st_pending st <> [] ->
  exists st' before after,
    sstf_body st = Some st' /\
    st_pending st = before ++ st_curr st' :: after /\
    st_pending st' = before ++ after /\
    (forall y, In y before ->
       Z.abs (st_curr st' - st_curr st) < Z.abs (y - st_curr st)) /\
    (forall y, In y after ->
       Z.abs (st_curr st' - st_curr st) <= Z.abs (y - st_curr st)).
Proof.
  intros _ Hne.
  destruct (sstf_body_spec st Hne) as (l1 & m & l2 & (Hp & H1 & H2) & Hb).
  eexists; exists l1, l2. split; [exact Hb|]. cbn [st_pending st_curr].
  repeat split; assumption.
Qed.

Lemma sstf_tie_first_in_queue_witness :
  sstf_iter 0 (sstf_init [60; 40] 50) = Some (sstf_init [60; 40] 50) /\
  st_pending (sstf_init [60; 40] 50) <> [] /\
  exists st' before after,
    sstf_body (sstf_init [60; 40] 50) = Some st' /\
    st_pending (sstf_init [60; 40] 50) = before ++ st_curr st' :: after /\
    st_pending st' = before ++ after /\
    (forall y, In y before ->
       Z.abs (st_curr st' - st_curr (sstf_init [60; 40] 50))
       < Z.abs (y - st_curr (sstf_init [60; 40] 50))) /\
    (forall y, In y after ->
       Z.abs (st_curr st' - st_curr (sstf_init [60; 40] 50))
       <= Z.abs (y - st_curr (sstf_init [60; 40] 50))).
Proof.
  split; [reflexivity|]. split; [discriminate|].
  apply (sstf_tie_first_in_queue [60; 40] 50 0 (sstf_init [60; 40] 50));
    [reflexivity|discriminate].
Defined.

(** *** SSTF: termination *)

(** C8: SSTF terminates on every request queue.  While fewer than
    [len(requests)] iterations have run, [pending] is non-empty and the
    body removes exactly one occurrence from it; after exactly
    [len(requests)] iterations [pending] is empty, the loop exits and the
    function returns the seek sequence and total built so far. *)
Theorem sstf_terminates (requests : list Z) (head : Z) :
  (forall k, (k < length requests)%nat ->
     exists st st' before after,
       sstf_iter k (sstf_init requests head) = Some st /\
       sstf_body st = Some st' /\
       st_pending st = before ++ st_curr st' :: after /\
       st_pending st' = before ++ after /\
       length (st_pending st) = (length requests - k)%nat) /\
  exists st_end,
    sstf_iter (length requests) (sstf_init requests head) = Some st_end /\
    st_pending st_end = [] /\
    sstf requests head = Some (st_order st_end, st_total st_end).
Proof.
  split; [|apply sstf_returns].
  intros k Hk.
  destruct (sstf_iter_defined k (sstf_init requests head)) as (st & Hst);
    [simpl; lia|].
  pose proof (sstf_iter_length _ _ _ Hst) as Hl. simpl in Hl.
  assert (Hne : st_pending st <> []).
  { intros E. rewrite E in Hl. simpl in Hl. lia. }
  destruct (sstf_body_spec st Hne) as (l1 & m & l2 & (Hp & _) & Hb).
  eexists st, _, l1, l2. split; [exact Hst|]. split; [exact Hb|].
  cbn [st_pending st_curr]. split; [exact Hp|]. split; [reflexivity|lia].
Qed.

Section CallerStore.
(** The store at the call, and the objects made during the call. *)
Variable h : store.

Lemma nth_error_fresh (fresh : store) (i : nat) :
  nth_error (h ++ fresh) (length h + i)%nat = nth_error fresh i.
Proof.
  rewrite nth_error_app2 by lia. f_equal. lia.
Qed.

Lemma nth_error_old (fresh : store) (l : loc) (v : list Z) :
  nth_error h l = Some v -> nth_error (h ++ fresh) l = Some v.
Proof.
  intros H. rewrite nth_error_app1; [assumption|].
  apply nth_error_Some. congruence.
Qed.

Lemma set_nth_fresh (fresh : store) (i : nat) (v : list Z) :
  set_nth (h ++ fresh) (length h + i)%nat v = h ++ set_nth fresh i v.
Proof.
  induction h as [|x h' IH]; simpl; [reflexivity|now rewrite IH].
Qed.

Lemma fetch_old (fresh : store) (l : loc) (v : list Z) :
  nth_error h l = Some v -> fetch l (h ++ fresh) = Some (v, h ++ fresh).
Proof.
  intros H. unfold fetch. now rewrite (nth_error_old fresh l v H).
Qed.

Lemma fetch_fresh (fresh : store) (i : nat) (v : list Z) :
  nth_error fresh i = Some v ->
  fetch (length h + i)%nat (h ++ fresh) = Some (v, h ++ fresh).
Proof.
  intros H. unfold fetch. now rewrite nth_error_fresh, H.
Qed.

Lemma put_fresh (fresh : store) (i : nat) (v : list Z) :
  (i < length fresh)%nat ->
  put (length h + i)%nat v (h ++ fresh) = Some (tt, h ++ set_nth fresh i v).
Proof.
  intros H. unfold put. rewrite set_nth_fresh.
  replace (length h + i <? length (h ++ fresh))%nat with true;
    [reflexivity|].
  symmetry. apply Nat.ltb_lt. rewrite length_app. lia.
Qed.

Lemma alloc_fresh (fresh : store) (v : list Z) :
  alloc v (h ++ fresh) =
    Some ((length h + length fresh)%nat, h ++ (fresh ++ [v])).
Proof.
  unfold alloc. now rewrite length_app, app_assoc.
Qed.

Lemma list_append_fresh (fresh : store) (i : nat) (s : list Z) (x : Z) :
  nth_error fresh i = Some s ->
  list_append (length h + i)%nat x (h ++ fresh) =
    Some (tt, h ++ set_nth fresh i (s ++ [x])).
Proof.
  intros H. unfold list_append, bind. rewrite (fetch_fresh _ _ _ H).
  apply put_fresh. apply nth_error_Some. congruence.
Qed.

Lemma list_remove_fresh (fresh : store) (i : nat) (s s' : list Z) (x : Z) :
  nth_error fresh i = Some s -> py_remove x s = Some s' ->
  list_remove (length h + i)%nat x (h ++ fresh) =
    Some (tt, h ++ set_nth fresh i s').
Proof.
  intros H Hr. unfold list_remove, bind. rewrite (fetch_fresh _ _ _ H), Hr.
  apply put_fresh. apply nth_error_Some. congruence.
Qed.

Lemma list_sort_fresh (fresh : store) (i : nat) (s : list Z) :
  nth_error fresh i = Some s ->
  list_sort (length h + i)%nat (h ++ fresh) =
    Some (tt, h ++ set_nth fresh i (py_sort s)).
Proof.
  intros H. unfold list_sort, bind. rewrite (fetch_fresh _ _ _ H).
  apply put_fresh. apply nth_error_Some. congruence.
Qed.

(** The sweeps append to [seek_sequence], the third object made by
    [scan] and [cscan]. *)
Lemma sweep_h_fresh (rs a b s : list Z) (t c : Z) :
  sweep_h (length h + 2)%nat rs t c (h ++ [a; b; s]) =
    Some ((t + path_dist c rs, last rs c), h ++ [a; b; s ++ rs]).
Proof.
  revert s t c; induction rs as [|r rs IH]; intros s t c.
  - simpl. unfold ret. now rewrite app_nil_r, Z.add_0_r.
  - cbn [sweep_h]. unfold bind.
    rewrite (list_append_fresh [a; b; s] 2 s r eq_refl).
    cbn [set_nth]. rewrite IH, last_cons, <- app_assoc.
    cbn [path_dist app]. do 3 f_equal. lia.
Qed.

(** The loop of [sstf] works on [pending] and [order], the two objects
    made by [sstf], as the loop body of the pure model does. *)
Lemma sstf_while_h_fresh (fuel : nat) (st st' : sstf_state) :
  (length (st_pending st) <= fuel)%nat ->
  sstf_iter (length (st_pending st)) st = Some st' ->
  sstf_while_h fuel (length h + 0)%nat (length h + 1)%nat
    (st_total st) (st_curr st) (h ++ [st_pending st; st_order st]) =
    Some (st_total st', h ++ [[]; st_order st']).
Proof.
  revert st; induction fuel as [|fuel IH]; intros st Hf Hit.
  - destruct st as [p o t c]. cbn [st_pending st_order st_total st_curr] in *.
    destruct p; [|simpl in Hf; lia]. simpl in Hit. inversion Hit; subst.
    cbn [sstf_while_h]. unfold bind.
    now rewrite (fetch_fresh [[]; o] 0 [] eq_refl).
  - destruct (st_pending st) as [|x xs] eqn:E.
    + simpl in Hit. injection Hit as <-.
      cbn [sstf_while_h]. unfold bind.
      now rewrite (fetch_fresh [[]; st_order st] 0 [] eq_refl).
    + cbn [sstf_while_h]. unfold bind at 1.
      rewrite (fetch_fresh [x :: xs; st_order st] 0 (x :: xs) eq_refl).
      cbn [length sstf_iter] in Hit.
      unfold sstf_body in Hit. rewrite E in Hit.
      destruct (py_min _ (x :: xs)) as [m|]; [|discriminate].
      destruct (py_remove m (x :: xs)) as [p'|] eqn:Er; [|discriminate].
      unfold bind.
      rewrite (list_append_fresh [x :: xs; st_order st] 1 _ m eq_refl).
      cbn [set_nth].
      rewrite (list_remove_fresh [x :: xs; st_order st ++ [m]] 0 _ p' m
                 eq_refl Er).
      cbn [set_nth].
      pose proof (py_remove_length _ _ _ Er) as Hl. simpl in Hl, Hf.
      assert (Hlen : length xs = length p') by lia.
      rewrite Hlen in Hit.
      apply (IH (mk_sstf p' (st_order st ++ [m])
                   (st_total st + Z.abs (m - st_curr st)) m));
        cbn [st_pending]; [lia|assumption].
Qed.

Lemma list_comp_old (fresh : store) (p : Z -> bool) (l : loc) (v : list Z) :
  nth_error h l = Some v ->
  list_comp p l (h ++ fresh) =
    Some ((length h + length fresh)%nat, h ++ (fresh ++ [filter p v])).
Proof.
  intros H. unfold list_comp, bind. rewrite (fetch_old _ _ _ H).
  apply alloc_fresh.
Qed.

Variable rq : loc.
Variable requests : list Z.
Hypothesis Hrq : nth_error h rq = Some requests.

Lemma fcfs_h_run (head : Z) :
  fcfs_h rq head (h ++ []) =
    Some (((length h + 0)%nat, snd (fcfs requests head)), h ++ [requests]).
Proof.
  unfold fcfs_h, list_copy, bind.
  rewrite (fetch_old [] _ _ Hrq), alloc_fresh. cbn [length app].
  now rewrite (fetch_fresh [requests] 0 requests eq_refl).
Qed.

Lemma sstf_h_run (fuel : nat) (head : Z) :
  (length requests <= fuel)%nat ->
  exists order total,
    sstf requests head = Some (order, total) /\
    sstf_h fuel rq head (h ++ []) =
      Some (((length h + 1)%nat, total), h ++ [[]; order]).
Proof.
  intros Hf. destruct (sstf_returns requests head) as (st & Hit & _ & Hs).
  exists (st_order st), (st_total st). split; [assumption|].
  pose proof (sstf_while_h_fresh fuel (sstf_init requests head) st Hf Hit)
    as Hw.
  cbn [sstf_init st_pending st_order st_total st_curr] in Hw.
  unfold sstf_h, list_copy, list_new, bind.
  rewrite (fetch_old [] _ _ Hrq), alloc_fresh. cbn [length app].
  rewrite alloc_fresh. cbn [length app]. now rewrite Hw.
Qed.

Lemma scan_h_run (head : Z) (direction : String.string) (disk_size : Z) :
  scan_h rq head direction disk_size (h ++ []) =
    Some (((length h + 2)%nat, snd (scan requests head direction disk_size)),
          h ++ [left_of requests head; right_of requests head;
                fst (scan requests head direction disk_size)]).
Proof.
  rewrite scan_eq. unfold scan_h, list_new, bind.
  rewrite (list_comp_old [] _ _ _ Hrq). cbn [length app].
  rewrite (list_comp_old _ _ _ _ Hrq). cbn [length app].
  erewrite (list_sort_fresh _ 0) by reflexivity. cbn [set_nth].
  erewrite (list_sort_fresh _ 1) by reflexivity. cbn [set_nth].
  rewrite alloc_fresh. cbn [length app].
  fold (left_of requests head) (right_of requests head).
  destruct (is_left direction).
  - erewrite (fetch_fresh _ 0) by reflexivity. rewrite sweep_h_fresh.
    erewrite (fetch_fresh _ 1) by reflexivity. rewrite sweep_h_fresh. reflexivity.
  - erewrite (fetch_fresh _ 1) by reflexivity. rewrite sweep_h_fresh.
    erewrite (fetch_fresh _ 0) by reflexivity. rewrite sweep_h_fresh. reflexivity.
Qed.

Lemma cscan_h_run (head : Z) (direction : String.string) (disk_size : Z) :
  cscan_h rq head direction disk_size (h ++ []) =
    Some (((length h + 2)%nat,
           snd (cscan requests head direction disk_size)),
          h ++ [left_of requests head; right_of requests head;
                fst (cscan requests head direction disk_size)]).
Proof.
  rewrite cscan_eq. unfold cscan_h, list_new, bind.
  rewrite (list_comp_old [] _ _ _ Hrq). cbn [length app].
  rewrite (list_comp_old _ _ _ _ Hrq). cbn [length app].
  erewrite (list_sort_fresh _ 0) by reflexivity. cbn [set_nth].
  erewrite (list_sort_fresh _ 1) by reflexivity. cbn [set_nth].
  rewrite alloc_fresh. cbn [length app].
  fold (left_of requests head) (right_of requests head).
  destruct (is_left direction).
  - erewrite (fetch_fresh _ 0) by reflexivity. rewrite sweep_h_fresh.
    erewrite (fetch_fresh _ 1) by reflexivity. rewrite sweep_h_fresh. reflexivity.
  - erewrite (fetch_fresh _ 1) by reflexivity. rewrite sweep_h_fresh.
    erewrite (fetch_fresh _ 0) by reflexivity. rewrite sweep_h_fresh. reflexivity.
Qed.

(** A run that only adds objects after those of [h] preserves [h]. *)
Lemma preserving_intro (m : M (loc * Z)) (result : list Z * Z)
    (fresh : store) (i : nat) :
  m (h ++ []) = Some (((length h + i)%nat, snd result), h ++ fresh) ->
  nth_error fresh i = Some (fst result) ->
  returns_preserving m h result.
Proof.
  rewrite app_nil_r. intros Hm Hi.
  exists (length h + i)%nat, (h ++ fresh). split; [assumption|].
  split; [now rewrite nth_error_fresh|]. intros l v. apply nth_error_old.
Qed.
End CallerStore.

(** C9: no scheduling function mutates its argument.  Called on a store
    where [rq] refers to the request list, each of FCFS, SSTF, SCAN and
    C-SCAN returns the result of the pure function in a store where every
    list object of the caller, the request list among them, holds the
    same items in the same order as before the call. *)
Theorem schedulers_do_not_mutate (h : store) (rq : loc) (requests : list Z)
    (head : Z) (direction : String.string) (disk_size : Z) :
  nth_error h rq = Some requests ->
  returns_preserving (fcfs_h rq head) h (fcfs requests head) /\
  (forall fuel, (length requests <= fuel)%nat ->
     exists result,
       sstf requests head = Some result /\
       returns_preserving (sstf_h fuel rq head) h result) /\
  returns_preserving (scan_h rq head direction disk_size) h
    (scan requests head direction disk_size) /\
  returns_preserving (cscan_h rq head direction disk_size) h
    (cscan requests head direction disk_size).
Proof.
  intros Hrq. split; [|split; [|split]].
  - eapply preserving_intro with (i := 0%nat);
      [apply (fcfs_h_run h rq requests Hrq)|reflexivity].
  - intros fuel Hf.
    destruct (sstf_h_run h rq requests Hrq fuel head Hf)
      as (order & total & Hs & Hrun).
    exists (order, total). split; [assumption|].
    eapply preserving_intro with (i := 1%nat); [exact Hrun|reflexivity].
  - eapply preserving_intro with (i := 2%nat);
      [apply (scan_h_run h rq requests Hrq)|reflexivity].
  - eapply preserving_intro with (i := 2%nat);
      [apply (cscan_h_run h rq requests Hrq)|reflexivity].
Qed.

Lemma schedulers_do_not_mutate_witness :
  nth_error [[82; 170; 43]] 0%nat = Some [82; 170; 43] /\
  (returns_preserving (fcfs_h 0%nat 50) [[82; 170; 43]] (fcfs [82; 170; 43] 50) /\
   (forall fuel, (length [82; 170; 43] <= fuel)%nat ->
      exists result,
        sstf [82; 170; 43] 50 = Some result /\
        returns_preserving (sstf_h fuel 0%nat 50) [[82; 170; 43]] result) /\
   returns_preserving (scan_h 0%nat 50 "left" 200) [[82; 170; 43]]
     (scan [82; 170; 43] 50 "left" 200) /\
   returns_preserving (cscan_h 0%nat 50 "left" 200) [[82; 170; 43]]
     (cscan [82; 170; 43] 50 "left" 200)).
Proof.
  split; [reflexivity|].
  apply (schedulers_do_not_mutate [[82; 170; 43]] 0%nat [82; 170; 43] 50
           "left" 200).
  reflexivity.
Defined.

(** ** Further properties of the schedulers *)

(** *** Paths *)

Lemma path_dist_nonneg (l : list Z) (start : Z) : 0 <= path_dist start l.
Proof.
  revert start; induction l as [|x l IH]; intros start; simpl; [lia|].
  specialize (IH x). lia.
Qed.

Lemma path_dist_reach (l : list Z) (start x : Z) :
  In x l -> Z.abs (start - x) <= path_dist start l.
Proof.
  revert start; induction l as [|y l IH]; intros start Hin; [easy|].
  simpl. destruct Hin as [->|Hin].
  - pose proof (path_dist_nonneg l x). lia.
  - specialize (IH y Hin). lia.
Qed.

Lemma path_dist_asc (l : list Z) (start : Z) :
  Sorted Z.le (start :: l) -> path_dist start l = last l start - start.
Proof.
  revert start; induction l as [|x l IH]; intros start Hs; simpl; [lia|].
  apply Sorted_inv in Hs. destruct Hs as (Hs & Hhd).
  apply HdRel_inv in Hhd. rewrite (IH x Hs).
  change (match l with [] => x | _ :: _ => last l start end)
    with (last (x :: l) start).
  rewrite last_cons. lia.
Qed.

Lemma path_dist_desc (l : list Z) (start : Z) :
  Sorted Z.ge (start :: l) -> path_dist start l = start - last l start.
Proof.
  revert start; induction l as [|x l IH]; intros start Hs; simpl; [lia|].
  apply Sorted_inv in Hs. destruct Hs as (Hs & Hhd).
  apply HdRel_inv in Hhd. rewrite (IH x Hs).
  change (match l with [] => x | _ :: _ => last l start end)
    with (last (x :: l) start).
  rewrite last_cons. lia.
Qed.

(** *** Sorted lists *)

Lemma py_sort_ssorted (l : list Z) : StronglySorted Z.le (py_sort l).
Proof.
  apply Sorted_StronglySorted; [exact Z.le_trans|apply py_sort_sorted].
Qed.

Lemma ssorted_snoc (R : Z -> Z -> Prop) (l : list Z) (x : Z) :
  StronglySorted R l -> Forall (fun y => R y x) l ->
  StronglySorted R (l ++ [x]).
Proof.
  induction l as [|y l IH]; intros Hs Hall; simpl.
  - repeat constructor.
  - inversion Hs; subst. inversion Hall; subst.
    constructor; [now apply IH|].
    apply Forall_app. split; [assumption|now constructor].
Qed.

Lemma ssorted_rev (l : list Z) :
  StronglySorted Z.le l -> StronglySorted Z.ge (rev l).
Proof.
  induction l as [|x l IH]; intros Hs; simpl; [constructor|].
  inversion Hs as [|? ? Hl Hx]; subst.
  apply ssorted_snoc; [now apply IH|].
  apply Forall_rev. eapply Forall_impl; [|exact Hx].
  intros y Hy. simpl in Hy. lia.
Qed.

Lemma hdrel_of_forall (R : Z -> Z -> Prop) (a : Z) (l : list Z) :
  Forall (R a) l -> HdRel R a l.
Proof.
  intros H. destruct l; constructor. now inversion H.
Qed.

(** Two ascending lists with the same items are the same list. *)
Lemma ssorted_perm_eq (l l' : list Z) :
  StronglySorted Z.le l -> StronglySorted Z.le l' -> Permutation l l' ->
  l = l'.
Proof.
  revert l'; induction l as [|x l IH]; intros l' Hs Hs' Hp.
  - apply Permutation_nil in Hp. now subst.
  - destruct l' as [|y l'].
    { apply Permutation_sym, Permutation_nil in Hp. discriminate. }
    inversion Hs as [|? ? Hl Hx]; subst.
    inversion Hs' as [|? ? Hl' Hy]; subst.
    assert (x = y).
    { assert (Hxin : In x (y :: l'))
        by (apply (Permutation_in _ Hp); now left).
      assert (Hyin : In y (x :: l))
        by (apply (Permutation_in _ (Permutation_sym Hp)); now left).
      rewrite Forall_forall in Hx, Hy.
      destruct Hxin as [->|Hxin]; [reflexivity|].
      destruct Hyin as [->|Hyin]; [reflexivity|].
      specialize (Hx y Hyin). specialize (Hy x Hxin). lia. }
    subst y. f_equal. apply IH; try assumption.
    now apply Permutation_cons_inv in Hp.
Qed.

Lemma py_sort_of_perm (l l' : list Z) :
  Permutation l l' -> py_sort l = py_sort l'.
Proof.
  intros Hp. apply ssorted_perm_eq; try apply py_sort_ssorted.
  now rewrite !py_sort_perm.
Qed.

Lemma filter_perm (f : Z -> bool) (l l' : list Z) :
  Permutation l l' -> Permutation (filter f l) (filter f l').
Proof.
  induction 1 as [|x l l' Hp IH|x y l|l l' l'' H1 IH1 H2 IH2]; simpl.
  - reflexivity.
  - destruct (f x); [now constructor|assumption].
  - destruct (f x), (f y); try reflexivity. apply perm_swap.
  - now rewrite IH1.
Qed.

Lemma last_rev (l : list Z) (d : Z) : last (rev l) d = hd d l.
Proof.
  destruct l as [|x l]; [reflexivity|]. simpl. apply last_last.
Qed.

(** *** Largest and smallest item *)

Lemma max_of_perm (d : Z) (l l' : list Z) :
  Permutation l l' -> max_of d l = max_of d l'.
Proof.
  induction 1; simpl in *; lia.
Qed.

Lemma min_of_perm (d : Z) (l l' : list Z) :
  Permutation l l' -> min_of d l = min_of d l'.
Proof.
  induction 1; simpl in *; lia.
Qed.

Lemma max_of_sorted (d : Z) (l : list Z) :
  StronglySorted Z.le l -> Forall (fun r => d <= r) l ->
  max_of d l = last l d.
Proof.
  induction l as [|x l IH]; intros Hs Hall; [reflexivity|].
  inversion Hs as [|? ? Hl Hx]; subst. inversion Hall; subst.
  rewrite last_cons. simpl. rewrite (IH Hl) by assumption.
  destruct l as [|y l]; [simpl; lia|].
  rewrite !last_cons.
  destruct (last_or_in l y) as [E|Hin].
  - rewrite E. inversion Hx; subst. lia.
  - rewrite Forall_forall in Hx. specialize (Hx _ (or_intror Hin)). lia.
Qed.

Lemma min_of_lower (d x : Z) (l : list Z) :
  x <= d -> Forall (fun r => x <= r) l -> x <= min_of d l.
Proof.
  intros Hd. induction 1; simpl; lia.
Qed.

Lemma min_of_sorted (d : Z) (l : list Z) :
  StronglySorted Z.le l -> Forall (fun r => r <= d) l ->
  min_of d l = hd d l.
Proof.
  destruct l as [|x l]; intros Hs Hall; [reflexivity|].
  inversion Hs as [|? ? Hl Hx]; subst. inversion Hall; subst. simpl.
  pose proof (min_of_lower d x l) as H. specialize (H ltac:(assumption) Hx).
  lia.
Qed.

(** *** The two sides of the head *)

Lemma left_of_below (requests : list Z) (head : Z) :
  Forall (fun r => r < head) (left_of requests head).
Proof.
  apply Forall_forall. intros x Hx. now apply left_of_in in Hx.
Qed.

Lemma right_of_above (requests : list Z) (head : Z) :
  Forall (fun r => head <= r) (right_of requests head).
Proof.
  apply Forall_forall. intros x Hx. now apply right_of_in in Hx.
Qed.

Lemma sides_within (requests : list Z) (head : Z) (P : Z -> Prop) :
  Forall P requests ->
  Forall P (left_of requests head) /\ Forall P (right_of requests head).
Proof.
  rewrite !Forall_forall. intros H.
  split; intros x Hx; apply H;
    [now apply left_of_in in Hx|now apply right_of_in in Hx].
Qed.

Lemma right_of_asc (requests : list Z) (head : Z) :
  Sorted Z.le (right_of requests head).
Proof. apply py_sort_sorted. Qed.

Lemma left_of_asc (requests : list Z) (head : Z) :
  Sorted Z.le (left_of requests head).
Proof. apply py_sort_sorted. Qed.

Lemma left_of_desc (requests : list Z) (head : Z) :
  Sorted Z.ge (rev (left_of requests head)).
Proof.
  apply StronglySorted_Sorted, ssorted_rev, py_sort_ssorted.
Qed.

Lemma right_of_desc (requests : list Z) (head : Z) :
  Sorted Z.ge (rev (right_of requests head)).
Proof.
  apply StronglySorted_Sorted, ssorted_rev, py_sort_ssorted.
Qed.

(** The leftward leg together with the hop to cylinder 0 costs [head],
    as [scan] and [cscan] count it, whatever the requests. *)
Lemma left_leg_and_hop (requests : list Z) (head : Z) :
  path_dist head (rev (left_of requests head)) +
  last (rev (left_of requests head)) head = head.
Proof.
  rewrite path_dist_desc; [lia|].
  constructor; [apply left_of_desc|]. apply hdrel_of_forall.
  apply Forall_rev. eapply Forall_impl; [|apply left_of_below].
  intros r Hr. simpl in Hr. lia.
Qed.

(** The rightward leg together with the hop to the last cylinder. *)
Lemma right_leg_and_hop (requests : list Z) (head disk_size : Z) :
  head <= disk_size - 1 -> Forall (fun r => r <= disk_size - 1) requests ->
  path_dist head (right_of requests head) +
  Z.abs (disk_size - 1 - last (right_of requests head) head) =
  disk_size - 1 - head.
Proof.
  intros Hh Hr. rewrite path_dist_asc.
  - assert (last (right_of requests head) head <= disk_size - 1).
    { destruct (last_or_in (right_of requests head) head) as [->|Hin];
        [assumption|].
      apply right_of_in in Hin. rewrite Forall_forall in Hr.
      now apply Hr. }
    lia.
  - constructor; [apply right_of_asc|]. apply hdrel_of_forall.
    apply right_of_above.
Qed.

(** A leg upwards from cylinder 0 ends at its largest request. *)
Lemma leg_up_from_zero (l : list Z) :
  Forall (fun r => 0 <= r) l ->
  path_dist 0 (py_sort l) = max_of 0 l.
Proof.
  intros Hl.
  assert (Hs : Forall (fun r => 0 <= r) (py_sort l)).
  { rewrite Forall_forall in *. intros x Hx. apply Hl.
    now apply (Permutation_in _ (py_sort_perm l)). }
  rewrite path_dist_asc.
  - rewrite <- (max_of_perm 0 _ _ (py_sort_perm l)).
    rewrite max_of_sorted; [lia|apply py_sort_ssorted|assumption].
  - constructor; [apply py_sort_sorted|]. now apply hdrel_of_forall.
Qed.

(** A leg downwards from cylinder [top] ends at its smallest request. *)
Lemma leg_down_from_top (l : list Z) (top : Z) :
  Forall (fun r => r <= top) l ->
  path_dist top (rev (py_sort l)) = top - min_of top l.
Proof.
  intros Hl.
  assert (Hs : Forall (fun r => r <= top) (py_sort l)).
  { rewrite Forall_forall in *. intros x Hx. apply Hl.
    now apply (Permutation_in _ (py_sort_perm l)). }
  rewrite path_dist_desc.
  - rewrite last_rev, <- (min_of_perm top _ _ (py_sort_perm l)).
    rewrite min_of_sorted; [lia|apply py_sort_ssorted|assumption].
  - constructor.
    + apply StronglySorted_Sorted, ssorted_rev, py_sort_ssorted.
    + apply hdrel_of_forall, Forall_rev. eapply Forall_impl; [|exact Hs].
      intros r Hr. simpl in Hr. lia.
Qed.

Lemma filter_within (P : Z -> Prop) (f : Z -> bool) (l : list Z) :
  Forall P l -> Forall P (filter f l).
Proof.
  rewrite !Forall_forall. intros H x Hx. apply filter_In in Hx. now apply H.
Qed.

(** *** SCAN and C-SCAN: totals in closed form *)

(** X1: with the head and every request on the disk, the SCAN total is
    [head] plus the largest request at or above the head (0 if there is
    none) for direction ['left'], and otherwise the distance from the head
    to the last cylinder plus the distance from the last cylinder down to
    the smallest request below the head (0 if there is none). *)
Theorem scan_total_closed_form (requests : list Z) (head : Z)
    (direction : String.string) (disk_size : Z) :
  0 <= head <= disk_size - 1 ->
  Forall (fun r => 0 <= r <= disk_size - 1) requests ->
  snd (scan requests head direction disk_size) =
    if is_left direction then
      head + max_of 0 (filter (fun r => r >=? head) requests)
    else
      (disk_size - 1 - head) +
      (disk_size - 1 -
       min_of (disk_size - 1) (filter (fun r => r <? head) requests)).
Proof.
  intros Hh Hr.
  assert (Hlo : Forall (fun r => 0 <= r) requests)
    by (eapply Forall_impl; [|exact Hr]; simpl; lia).
  assert (Hhi : Forall (fun r => r <= disk_size - 1) requests)
    by (eapply Forall_impl; [|exact Hr]; simpl; lia).
  rewrite scan_eq. cbv zeta. destruct (is_left direction); cbn [snd].
  - rewrite left_leg_and_hop. unfold right_of.
    rewrite leg_up_from_zero; [reflexivity|now apply filter_within].
  - rewrite right_leg_and_hop by (assumption || lia). unfold left_of.
    rewrite leg_down_from_top; [reflexivity|now apply filter_within].
Qed.

Lemma scan_total_closed_form_witness :
  0 <= 50 <= 200 - 1 /\
  Forall (fun r => 0 <= r <= 200 - 1) reference_requests /\
  snd (scan reference_requests 50 "right" 200) =
    (200 - 1 - 50) +
    (200 - 1 -
     min_of (200 - 1) (filter (fun r => r <? 50) reference_requests)).
Proof.
  assert (H0 : 0 <= 50 <= 200 - 1) by lia.
  assert (H1 : Forall (fun r => 0 <= r <= 200 - 1) reference_requests)
    by (repeat constructor; lia).
  split; [exact H0|]. split; [exact H1|].
  exact (scan_total_closed_form reference_requests 50 "right" 200 H0 H1).
Defined.

(** X2: with the head and every request on the disk, the C-SCAN total is
    [head] plus the distance from the last cylinder down to the smallest
    request at or above the head (0 if there is none) for direction
    ['left'], and otherwise the distance from the head to the last
    cylinder plus the largest request below the head (0 if there is
    none). *)
Theorem cscan_total_closed_form (requests : list Z) (head : Z)
    (direction : String.string) (disk_size : Z) :
  0 <= head <= disk_size - 1 ->
  Forall (fun r => 0 <= r <= disk_size - 1) requests ->
  snd (cscan requests head direction disk_size) =
    if is_left direction then
      head +
      (disk_size - 1 -
       min_of (disk_size - 1) (filter (fun r => r >=? head) requests))
    else
      (disk_size - 1 - head) +
      max_of 0 (filter (fun r => r <? head) requests).
Proof.
  intros Hh Hr.
  assert (Hlo : Forall (fun r => 0 <= r) requests)
    by (eapply Forall_impl; [|exact Hr]; simpl; lia).
  assert (Hhi : Forall (fun r => r <= disk_size - 1) requests)
    by (eapply Forall_impl; [|exact Hr]; simpl; lia).
  rewrite cscan_eq. cbv zeta. destruct (is_left direction); cbn [snd].
  - rewrite left_leg_and_hop. unfold right_of.
    rewrite leg_down_from_top; [reflexivity|now apply filter_within].
  - rewrite right_leg_and_hop by (assumption || lia). unfold left_of.
    rewrite leg_up_from_zero; [reflexivity|now apply filter_within].
Qed.

Lemma cscan_total_closed_form_witness :
  0 <= 50 <= 200 - 1 /\
  Forall (fun r => 0 <= r <= 200 - 1) reference_requests /\
  snd (cscan reference_requests 50 "left" 200) =
    50 +
    (200 - 1 -
     min_of (200 - 1) (filter (fun r => r >=? 50) reference_requests)).
Proof.
  assert (H0 : 0 <= 50 <= 200 - 1) by lia.
  assert (H1 : Forall (fun r => 0 <= r <= 200 - 1) reference_requests)
    by (repeat constructor; lia).
  split; [exact H0|]. split; [exact H1|].
  exact (cscan_total_closed_form reference_requests 50 "left" 200 H0 H1).
Defined.

(** *** SCAN and C-SCAN: the shape of the seek sequence *)

(** X3: the SCAN seek sequence is made of the requests below the head in
    descending order and the requests at or above the head in ascending
    order; the descending run comes first for direction ['left'], the
    ascending run first otherwise. *)
Theorem scan_order_shape (requests : list Z) (head : Z)
    (direction : String.string) (disk_size : Z) :
  exists down up,
    fst (scan requests head direction disk_size) =
      (if is_left direction then down ++ up else up ++ down) /\
    Sorted Z.ge down /\ Forall (fun r => r < head) down /\
    Sorted Z.le up /\ Forall (fun r => head <= r) up /\
    Permutation down (filter (fun r => r <? head) requests) /\
    Permutation up (filter (fun r => r >=? head) requests).
Proof.
  exists (rev (left_of requests head)), (right_of requests head).
  split; [rewrite scan_eq; cbv zeta; now destruct (is_left direction)|].
  split; [apply left_of_desc|].
  split; [apply Forall_rev, left_of_below|].
  split; [apply right_of_asc|].
  split; [apply right_of_above|].
  split.
  - rewrite <- Permutation_rev. apply py_sort_perm.
  - apply py_sort_perm.
Qed.

(** X4: the C-SCAN seek sequence for direction ['left'] is two descending
    runs, the requests below the head and then the requests at or above
    it; for any other direction it is two ascending runs, the requests at
    or above the head and then the requests below it. *)
Theorem cscan_order_shape (requests : list Z) (head : Z)
    (direction : String.string) (disk_size : Z) :
  exists below above,
    fst (cscan requests head direction disk_size) =
      (if is_left direction then below ++ above else above ++ below) /\
    (if is_left direction
     then Sorted Z.ge below /\ Sorted Z.ge above
     else Sorted Z.le below /\ Sorted Z.le above) /\
    Forall (fun r => r < head) below /\
    Forall (fun r => head <= r) above /\
    Permutation below (filter (fun r => r <? head) requests) /\
    Permutation above (filter (fun r => r >=? head) requests).
Proof.
  rewrite cscan_eq. cbv zeta. destruct (is_left direction).
  - exists (rev (left_of requests head)), (rev (right_of requests head)).
    split; [reflexivity|].
    split; [split; [apply left_of_desc|apply right_of_desc]|].
    split; [apply Forall_rev, left_of_below|].
    split; [apply Forall_rev, right_of_above|].
    split; rewrite <- Permutation_rev; apply py_sort_perm.
  - exists (left_of requests head), (right_of requests head).
    split; [reflexivity|].
    split; [split; [apply left_of_asc|apply right_of_asc]|].
    split; [apply left_of_below|].
    split; [apply right_of_above|].
    split; apply py_sort_perm.
Qed.

(** X5: SCAN and C-SCAN depend on the requests only as a multiset: two
    queues holding the same requests in a different arrival order get the
    same seek sequence and the same total. *)
Theorem scan_cscan_ignore_arrival_order (requests requests' : list Z)
    (head : Z) (direction : String.string) (disk_size : Z) :
  Permutation requests requests' ->
  scan requests head direction disk_size =
    scan requests' head direction disk_size /\
  cscan requests head direction disk_size =
    cscan requests' head direction disk_size.
Proof.
  intros Hp.
  assert (Hl : left_of requests head = left_of requests' head)
    by (apply py_sort_of_perm, filter_perm, Hp).
  assert (Hr : right_of requests head = right_of requests' head)
    by (apply py_sort_of_perm, filter_perm, Hp).
  unfold scan, cscan. now rewrite Hl, Hr.
Qed.

Lemma scan_cscan_ignore_arrival_order_witness :
  Permutation [82; 170; 43] [43; 82; 170] /\
  (scan [82; 170; 43] 50 "left" 200 = scan [43; 82; 170] 50 "left" 200 /\
   cscan [82; 170; 43] 50 "left" 200 = cscan [43; 82; 170] 50 "left" 200).
Proof.
  assert (Hp : Permutation [82; 170; 43] [43; 82; 170]).
  { apply Permutation_sym.
    apply (Permutation_cons_app [82; 170] [] 43). reflexivity. }
  split; [exact Hp|].
  exact (scan_cscan_ignore_arrival_order _ _ 50 "left"%string 200 Hp).
Defined.

(** X6: any direction other than the exact string ['left'] takes the
    branch of ['right']: no direction value makes SCAN or C-SCAN fail. *)
Theorem other_direction_is_right (requests : list Z) (head : Z)
    (direction : String.string) (disk_size : Z) :
  direction <> "left"%string ->
  scan requests head direction disk_size =
    scan requests head "right" disk_size /\
  cscan requests head direction disk_size =
    cscan requests head "right" disk_size.
Proof.
  intros Hd. apply String.eqb_neq in Hd.
  unfold scan, cscan, is_left. rewrite Hd. now split.
Qed.

Lemma other_direction_is_right_witness :
  "Left"%string <> "left"%string /\
  (scan reference_requests 50 "Left" 200 =
     scan reference_requests 50 "right" 200 /\
   cscan reference_requests 50 "Left" 200 =
     cscan reference_requests 50 "right" 200).
Proof.
  assert (Hd : "Left"%string <> "left"%string) by discriminate.
  split; [exact Hd|].
  exact (other_direction_is_right reference_requests 50 "Left" 200 Hd).
Defined.

(** *** Totals are path lengths *)

(** What [k] runs of the SSTF loop body add to [order], [total] and
    [curr]. *)
Lemma sstf_iter_trace (k : nat) (st st' : sstf_state) :
  sstf_iter k st = Some st' ->
  exists visited,
    st_order st' = st_order st ++ visited /\
    st_total st' = st_total st + path_dist (st_curr st) visited /\
    st_curr st' = last visited (st_curr st) /\
    length visited = k.
Proof.
  revert st; induction k as [|k IH]; intros st H; simpl in H.
  - injection H as <-. exists []. simpl. rewrite app_nil_r.
    split; [reflexivity|]. split; [lia|]. split; reflexivity.
  - destruct (sstf_body st) as [st1|] eqn:Hb; [|discriminate].
    assert (Hne : st_pending st <> []).
    { intros E. rewrite (sstf_body_empty st E) in Hb. discriminate. }
    destruct (sstf_body_spec st Hne) as (l1 & m & l2 & _ & Hb').
    rewrite Hb' in Hb. injection Hb as <-.
    destruct (IH _ H) as (v & Ho & Ht & Hc & Hlen).
    cbn [st_order st_total st_curr] in Ho, Ht, Hc.
    exists (m :: v). rewrite Ho, Ht, Hc, last_cons, <- app_assoc.
    cbn [path_dist app length].
    split; [reflexivity|]. split; [lia|]. split; [reflexivity|lia].
Qed.

(** The result of SSTF: a rearrangement of the queue and the length of
    the path through it. *)
Lemma sstf_result (requests : list Z) (head : Z) :
  exists order total,
    sstf requests head = Some (order, total) /\
    Permutation order requests /\
    total = path_dist head order.
Proof.
  destruct (sstf_returns requests head) as (st & Hit & Hp & Hs).
  exists (st_order st), (st_total st). split; [assumption|].
  split.
  - apply sstf_iter_perm in Hit. now rewrite Hp, app_nil_r in Hit.
  - destruct (sstf_iter_trace _ _ _ Hit) as (v & Ho & Ht & _).
    simpl in Ho, Ht. rewrite Ho, Ht. lia.
Qed.

(** X7: for FCFS and SSTF the total returned is the length of the path
    from the head through the seek sequence returned: the sum of the
    absolute differences of consecutive positions, and nothing else. *)
Theorem fcfs_sstf_total_is_path_length (requests : list Z) (head : Z) :
  snd (fcfs requests head) = path_dist head (fst (fcfs requests head)) /\
  exists order total,
    sstf requests head = Some (order, total) /\
    total = path_dist head order.
Proof.
  split; [apply fcfs_distance|].
  destruct (sstf_result requests head) as (order & total & Hs & _ & Ht).
  now exists order, total.
Qed.

(** X8: every request is within the total of FCFS and of SSTF: the head
    travels at least as far as the distance from its start to any one
    request. *)
Theorem fcfs_sstf_total_reaches_request (requests : list Z) (head x : Z) :
  In x requests ->
  Z.abs (head - x) <= snd (fcfs requests head) /\
  exists order total,
    sstf requests head = Some (order, total) /\
    Z.abs (head - x) <= total.
Proof.
  intros Hx. split.
  - unfold fcfs. cbn [snd]. rewrite fcfs_distance.
    now apply path_dist_reach.
  - destruct (sstf_result requests head) as (order & total & Hs & Hp & Ht).
    exists order, total. split; [assumption|]. rewrite Ht.
    apply path_dist_reach.
    now apply (Permutation_in _ (Permutation_sym Hp)).
Qed.

Lemma fcfs_sstf_total_reaches_request_witness :
  In 190 reference_requests /\
  (Z.abs (50 - 190) <= snd (fcfs reference_requests 50) /\
   exists order total,
     sstf reference_requests 50 = Some (order, total) /\
     Z.abs (50 - 190) <= total).
Proof.
  assert (Hin : In 190 reference_requests) by (simpl; tauto).
  split; [exact Hin|].
  exact (fcfs_sstf_total_reaches_request reference_requests 50 190 Hin).
Defined.



(** *** SSTF with every request on one side of the head *)

(** With every pending request at or above the current position, the
    body picks the smallest one, so the requests are visited upwards. *)
Lemma sstf_iter_asc (k : nat) (st st' : sstf_state) :
  Forall (fun r => st_curr st <= r) (st_pending st) ->
  sstf_iter k st = Some st' ->
  exists visited,
    st_order st' = st_order st ++ visited /\
    Sorted Z.le (st_curr st :: visited).
Proof.
  revert st; induction k as [|k IH]; intros st Hall H; simpl in H.
  - injection H as <-. exists []. rewrite app_nil_r.
    split; [reflexivity|repeat constructor].
  - destruct (sstf_body st) as [st1|] eqn:Hb; [|discriminate].
    assert (Hne : st_pending st <> []).
    { intros E. rewrite (sstf_body_empty st E) in Hb. discriminate. }
    destruct (sstf_body_spec st Hne) as (l1 & m & l2 & (Hp & H1 & H2) & Hb').
    rewrite Hb' in Hb. injection Hb as <-.
    rewrite Hp in Hall. rewrite Forall_forall in Hall.
    assert (Hm : st_curr st <= m) by (apply Hall, in_elt).
    assert (Hall1 : Forall (fun r => m <= r) (l1 ++ l2)).
    { apply Forall_forall. intros y Hy. apply in_app_or in Hy.
      assert (Hy' : In y (l1 ++ m :: l2))
        by (apply in_or_app; destruct Hy; [now left|now right; right]).
      specialize (Hall y Hy').
      destruct Hy as [Hy|Hy];
        [specialize (H1 y Hy)|specialize (H2 y Hy)]; simpl in *; lia. }
    apply IH in H; [|exact Hall1]. destruct H as (v & Ho & Hs).
    cbn [st_order st_curr] in Ho, Hs.
    exists (m :: v). rewrite Ho, <- app_assoc. split; [reflexivity|].
    constructor; [assumption|now constructor].
Qed.








(** *** SSTF: a request at the head, and rescheduling *)

(** X12: a request for the cylinder the head is on is serviced first by
    SSTF, at no cost: the total is the length of the path through the
    rest of the seek sequence. *)
Theorem sstf_request_at_head_first (requests : list Z) (head : Z) :
  In head requests ->
  exists rest,
    sstf requests head = Some (head :: rest, path_dist head rest).
Proof.
  intros Hin.
  destruct (sstf_returns requests head) as (st & Hit & _ & Hr).
  destruct requests as [|x xs]; [destruct Hin|].
  cbn [length sstf_iter] in Hit.
  destruct (sstf_body_spec (sstf_init (x :: xs) head))
    as (l1 & m & l2 & (Hp & H1 & H2) & Hb); [discriminate|].
  rewrite Hb in Hit. cbn [sstf_init st_pending st_order st_total st_curr] in *.
  assert (Hm : m = head).
  { rewrite Hp in Hin. apply in_app_or in Hin.
    destruct Hin as [Hin|[E|Hin]].
    - specialize (H1 _ Hin). simpl in H1. lia.
    - now symmetry.
    - specialize (H2 _ Hin). simpl in H2. lia. }
  subst m. destruct (sstf_iter_trace _ _ _ Hit) as (v & Ho & Ht & _).
  cbn [st_order st_total st_curr app] in Ho, Ht.
  exists v. rewrite Hr, Ho, Ht. do 2 f_equal. lia.
Qed.

Lemma sstf_request_at_head_first_witness :
  In 50 [82; 50; 43] /\
  exists rest,
    sstf [82; 50; 43] 50 = Some (50 :: rest, path_dist 50 rest).
Proof.
  assert (Hin : In 50 [82; 50; 43]) by (simpl; tauto).
  split; [exact Hin|].
  exact (sstf_request_at_head_first [82; 50; 43] 50 Hin).
Defined.

Lemma py_min_from_keep (key : Z -> Z) (m : Z) (xs : list Z) :
  Forall (fun y => key m <= key y) xs -> py_min_from key m xs = m.
Proof.
  unfold py_min_from. induction 1 as [|y xs Hy _ IH]; [reflexivity|].
  cbn [fold_left].
  replace (key y <? key m) with false by (symmetry; apply Z.ltb_ge; lia).
  exact IH.
Qed.

(** Running the loop again on the requests in the order it visited them
    visits them in that order again. *)
Lemma sstf_replay (k : nat) (st st' : sstf_state) :
  sstf_iter k st = Some st' ->
  exists visited,
    st_order st' = st_order st ++ visited /\
    length visited = k /\
    forall order0 total0,
      sstf_iter k (mk_sstf (visited ++ st_pending st') order0 total0
                     (st_curr st)) =
        Some (mk_sstf (st_pending st') (order0 ++ visited)
                (total0 + (st_total st' - st_total st)) (st_curr st')).
Proof.
  revert st; induction k as [|k IH]; intros st H; simpl in H.
  - injection H as <-. exists []. rewrite app_nil_r.
    split; [reflexivity|]. split; [reflexivity|]. intros o t. simpl.
    rewrite app_nil_r. do 2 f_equal. lia.
  - destruct (sstf_body st) as [st1|] eqn:Hb; [|discriminate].
    assert (Hne : st_pending st <> []).
    { intros E. rewrite (sstf_body_empty st E) in Hb. discriminate. }
    destruct (sstf_body_spec st Hne) as (l1 & m & l2 & (Hp & H1 & H2) & Hb').
    rewrite Hb' in Hb. injection Hb as <-.
    pose proof (sstf_iter_perm _ _ _ H) as Hperm.
    destruct (IH _ H) as (v & Ho & Hlen & Hrun).
    cbn [st_order st_pending st_total st_curr] in Ho, Hrun, Hperm.
    exists (m :: v). rewrite Ho, <- app_assoc.
    split; [reflexivity|]. split; [simpl; lia|]. intros o t.
    rewrite Ho, <- app_assoc in Hperm.
    apply Permutation_app_inv_l in Hperm.
    cbn [sstf_iter app]. unfold sstf_body.
    cbn [st_pending st_curr st_order st_total py_min].
    rewrite py_min_from_keep.
    + cbn [py_remove]. rewrite Z.eqb_refl. rewrite Hrun.
      rewrite <- app_assoc. cbn [app]. do 2 f_equal. lia.
    + apply Forall_forall. intros y Hy.
      apply (Permutation_in _ Hperm) in Hy. apply in_app_or in Hy.
      destruct Hy as [Hy|Hy];
        [specialize (H1 y Hy)|specialize (H2 y Hy)]; simpl in *; lia.
Qed.

(** X13: SSTF run again on the seek sequence it returned, from the same
    head, returns the same seek sequence and the same total. *)
Theorem sstf_idempotent (requests : list Z) (head : Z) :
  exists order total,
    sstf requests head = Some (order, total) /\
    sstf order head = Some (order, total).
Proof.
  destruct (sstf_returns requests head) as (st & Hit & Hpe & Hr).
  exists (st_order st), (st_total st). split; [assumption|].
  destruct (sstf_replay _ _ _ Hit) as (v & Ho & Hlen & Hrun).
  cbn [sstf_init st_order st_total st_curr app] in Ho, Hrun.
  specialize (Hrun [] 0). rewrite Hpe, app_nil_r in Hrun.
  unfold sstf. rewrite sstf_loop_iter.
  cbn [sstf_init st_pending]. rewrite Ho, Hlen.
  unfold sstf_init in Hrun |- *. rewrite Hrun. cbn [st_order st_total app].
  do 2 f_equal. lia.
Qed.

(** *** The list returned is a new object *)

Lemma new_object_intro (h : store) (rq : loc) (requests : list Z)
    (m : M (loc * Z)) (i : nat) (t : Z) (h1 : store) :
  nth_error h rq = Some requests ->
  m (h ++ []) = Some (((length h + i)%nat, t), h1) ->
  exists o t' h', m h = Some ((o, t'), h') /\ nth_error h o = None /\ o <> rq.
Proof.
  rewrite app_nil_r. intros Hrq Hm.
  exists (length h + i)%nat, t, h1. split; [assumption|].
  assert (Hlt : (rq < length h)%nat) by (apply nth_error_Some; congruence).
  split; [apply nth_error_None|]; lia.
Qed.

(** X14: the seek sequence is returned in a list object made by the call:
    its reference is none of the caller's store, so it is not the request
    list under another name, and changing it later leaves the request
    list alone. *)
Theorem returned_order_is_new_object (h : store) (rq : loc)
    (requests : list Z) (head : Z) (direction : String.string)
    (disk_size : Z) :
  nth_error h rq = Some requests ->
  (exists o t h',
      fcfs_h rq head h = Some ((o, t), h') /\
      nth_error h o = None /\ o <> rq) /\
  (forall fuel, (length requests <= fuel)%nat ->
     exists o t h',
       sstf_h fuel rq head h = Some ((o, t), h') /\
       nth_error h o = None /\ o <> rq) /\
  (exists o t h',
      scan_h rq head direction disk_size h = Some ((o, t), h') /\
      nth_error h o = None /\ o <> rq) /\
  (exists o t h',
      cscan_h rq head direction disk_size h = Some ((o, t), h') /\
      nth_error h o = None /\ o <> rq).
Proof.
  intros Hrq. split; [|split; [|split]].
  - eapply new_object_intro; [exact Hrq|].
    apply (fcfs_h_run h rq requests Hrq).
  - intros fuel Hf.
    destruct (sstf_h_run h rq requests Hrq fuel head Hf)
      as (order & total & _ & Hrun).
    eapply new_object_intro; [exact Hrq|exact Hrun].
  - eapply new_object_intro; [exact Hrq|].
    apply (scan_h_run h rq requests Hrq).
  - eapply new_object_intro; [exact Hrq|].
    apply (cscan_h_run h rq requests Hrq).
Qed.

Lemma returned_order_is_new_object_witness :
  nth_error [[82; 170; 43]] 0%nat = Some [82; 170; 43] /\
  exists o t h',
    fcfs_h 0%nat 50 [[82; 170; 43]] = Some ((o, t), h') /\
    nth_error [[82; 170; 43]] o = None /\ o <> 0%nat.
Proof.
  split; [reflexivity|].
  destruct (returned_order_is_new_object [[82; 170; 43]] 0%nat
              [82; 170; 43] 50 "left" 200 eq_refl) as (H & _).
  exact H.
Defined.

(** *** The chart of FCFS and SSTF *)

(** X15: called as the page calls it, on the seek sequence of FCFS or of
    SSTF, [plot_schedule] plots [len(requests) + 1] points at
    [x = 0, 1, ...], the first at the head position, and the distance
    between consecutive plotted cylinders adds up to the total that the
    algorithm returned. *)
Theorem plot_follows_total (requests : list Z) (head : Z) :
  (let order := fst (fcfs requests head) in
   fst (plot_points head order) = seq 0 (S (length requests)) /\
   hd 0 (snd (plot_points head order)) = head /\
   length (snd (plot_points head order)) = S (length requests) /\
   pairs_dist (snd (plot_points head order)) = snd (fcfs requests head)) /\
  exists order total,
    sstf requests head = Some (order, total) /\
    fst (plot_points head order) = seq 0 (S (length requests)) /\
    hd 0 (snd (plot_points head order)) = head /\
    length (snd (plot_points head order)) = S (length requests) /\
    pairs_dist (snd (plot_points head order)) = total.
Proof.
  split.
  - unfold fcfs, plot_points. cbn [fst snd app length hd pairs_dist].
    rewrite fcfs_distance. repeat split.
  - destruct (sstf_result requests head) as (order & total & Hs & Hp & Ht).
    exists order, total. split; [assumption|].
    unfold plot_points. cbn [fst snd app length hd pairs_dist].
    rewrite (Permutation_length Hp). repeat split. now symmetry.
Qed.

(** *** Agreement of the algorithms on a one-sided queue *)

Lemma right_of_all (requests : list Z) (head : Z) :
  Forall (fun r => head <= r) requests ->
  right_of requests head = py_sort requests.
Proof.
  intros Hall. unfold right_of. f_equal.
  induction Hall as [|x l Hx _ IH]; [reflexivity|]. simpl.
  replace (x >=? head) with true by (symmetry; apply Z.geb_le; lia).
  now rewrite IH.
Qed.

(** X16: when no request is below the head, SSTF, SCAN towards the left
    and C-SCAN towards the right all service the requests in the same
    order, the ascending one. *)
Theorem one_sided_queue_same_order (requests : list Z) (head disk_size : Z) :
  Forall (fun r => head <= r) requests ->
  fst (scan requests head "left" disk_size) = py_sort requests /\
  fst (cscan requests head "right" disk_size) = py_sort requests /\
  exists total, sstf requests head = Some (py_sort requests, total).
Proof.
  intros Hall. rewrite scan_eq, cscan_eq. cbv zeta.
  change (is_left "left") with true. change (is_left "right") with false.
  cbn [fst]. rewrite (left_of_none _ _ Hall), (right_of_all _ _ Hall).
  split; [reflexivity|]. split; [apply app_nil_r|].
  destruct (sstf_returns requests head) as (st & Hit & Hpe & Hr).
  exists (st_total st). rewrite Hr. do 2 f_equal.
  destruct (sstf_iter_asc _ (sstf_init requests head) st Hall Hit)
    as (v & Ho & Hs).
  pose proof (sstf_iter_perm _ _ _ Hit) as Hp.
  rewrite Hpe, app_nil_r in Hp.
  cbn [sstf_init st_order st_curr st_pending app] in *.
  apply ssorted_perm_eq.
  - rewrite Ho. apply Sorted_StronglySorted; [exact Z.le_trans|].
    now apply Sorted_inv in Hs.
  - apply py_sort_ssorted.
  - now rewrite Hp, py_sort_perm.
Qed.

Lemma one_sided_queue_same_order_witness :
  Forall (fun r => 50 <= r) [82; 170; 140] /\
  (fst (scan [82; 170; 140] 50 "left" 200) = py_sort [82; 170; 140] /\
   fst (cscan [82; 170; 140] 50 "right" 200) = py_sort [82; 170; 140] /\
   exists total,
     sstf [82; 170; 140] 50 = Some (py_sort [82; 170; 140], total)).
Proof.
  assert (H : Forall (fun r => 50 <= r) [82; 170; 140])
    by (repeat constructor; lia).
  split; [exact H|].
  exact (one_sided_queue_same_order [82; 170; 140] 50 200 H).
Defined.
